(** * FlappyBird: the game-state reducer of [main.ts], embedded and checked

    The development follows the final iteration of the game (the one with
    lives, the seeded bounce, the ghost path and the pause key).  Of the
    earlier iteration only the end-by-completion test is kept (module
    [Earlier]).

    Number model.  Every TypeScript [number] is an IEEE-754 double.
    - Positions, velocities, times and gap fractions are modelled by exact
      rationals ([Q]).  What is proved about them is either an equality
      between a stored field and the expression the code computes for it,
      or an order fact that rounding to nearest, being monotone, keeps.
      Where the code branches on a comparison of such numbers (the
      vulnerability test of [tick]), the statements are made by cases on
      the outcome of the test, or with a margin that rounding does not
      reach.
    - The seed of the random generator is an integer-valued double.  The
      product [a * seed] of [RNG.hash] leaves the range of the integers a
      double holds exactly, so that path is modelled on [Z] with the
      rounding of each arithmetic step written out ([fl]) and compared
      with machine doubles on sample seeds.
    - Scores, lives, ids and lengths are small integers ([Z], [nat]). *)

From Stdlib Require Import ZArith QArith Qabs Bool List Lia Lqa.
From Stdlib Require Import String Ascii.
From Stdlib Require Import Floats Uint63.
Import ListNotations.

Local Open Scope Q_scope.

(** ** Comparison operators of the source on rationals *)

Definition Qleb (a b : Q) : bool := Qle_bool a b.
Definition Qltb (a b : Q) : bool := negb (Qle_bool b a).

(** [Math.max] and [Math.min] on two (non-NaN) numbers. *)
Definition Math_max (a b : Q) : Q := if Qleb a b then b else a.
Definition Math_min (a b : Q) : Q := if Qleb a b then a else b.

(** ** Constants *)

Module Viewport.
Definition CANVAS_WIDTH : Q := 600.
Definition CANVAS_HEIGHT : Q := 400.
End Viewport.

Module Birb.
Definition WIDTH : Q := 42.
Definition HEIGHT : Q := 30.
End Birb.

Module Constants.
Definition PIPE_WIDTH : Q := 50.
Definition TICK_RATE_MS : Q := 20.
Definition GRAVITY : Q := 1 # 2.
Definition FLAP_STRENGTH : Q := -8.
Definition BIRD_X : Q := 100.
Definition PIPE_SPEED : Q := 2.
End Constants.

(** ** State *)

Record Pipe : Type := mkPipe {
  id : Z;
  x : Q;
  gapY : Q;
  gapHeight : Q;
  passed : bool;
  time : Q
}.

Record State : Type := mkState {
  birdY : Q;
  birdVelocity : Q;
  gameTime : Q;
  pipes : list Pipe;
  score : Z;
  gameEnd : bool;
  lives : Z;
  rngSeed : Z;
  invulnerableUntil : Q;
  currentPath : list Q;
  ghostPath : list Q;
  paused : bool
}.

Definition initialState : State := {|
  birdY := Viewport.CANVAS_HEIGHT / 2 - Birb.HEIGHT / 2;
  birdVelocity := 0;
  pipes := [];
  gameTime := 0;
  score := 0;
  gameEnd := false;
  lives := 3;
  rngSeed := 12345;
  invulnerableUntil := 0;
  currentPath := [];
  ghostPath := [];
  paused := false
|}.

(** ** Integer-valued doubles

    [fl z] is the double nearest to the integer [z] (round to nearest, ties
    to even, 53 significant bits).  Integers below [2^53] in magnitude are
    exact.  Overflow to infinity (beyond [2^1024]) cannot happen for the
    values of this program and is not modelled. *)

Local Open Scope Z_scope.

Definition fl (z : Z) : Z :=
  let m := Z.abs z in
  if m <? 2 ^ 53 then z
  else
    let e := Z.log2 m - 52 in
    let q := m / 2 ^ e in
    let r := m mod 2 ^ e in
    let half := 2 ^ (e - 1) in
    let q' :=
      if r <? half then q
      else if half <? r then q + 1
      else if Z.even q then q else q + 1 in
    Z.sgn z * (q' * 2 ^ e).

(** The value of a finite binary64 number that is an integer. *)
Definition f64_to_Z (f : float) : option Z :=
  match Prim2SF f with
  | S754_zero _ => Some 0
  | S754_finite s m e =>
      if 0 <=? e
      then Some ((if s then -1 else 1) * (Z.pos m * 2 ^ e))
      else if (Z.pos m) mod 2 ^ (- e) =? 0
           then Some ((if s then -1 else 1) * (Z.pos m / 2 ^ (- e)))
           else None
  | _ => None
  end.

(** imported directly from weekly submission *)
Module RNG.
Definition m : Z := 0x80000000. (* 2^31 *)
Definition a : Z := 1103515245.
Definition c : Z := 12345.

(** [(RNG.a * seed + RNG.c) % RNG.m]: a rounded product, a rounded sum
    and the remainder of [%], which is exact and takes the sign of the
    dividend. *)
Definition hash (seed : Z) : Z :=
  Z.rem (fl (fl (a * seed) + c)) m.

(** [(2 * hash) / (RNG.m - 1) - 1] *)
Definition scale (hash : Z) : Q :=
  (inject_Z (2 * hash) / inject_Z (m - 1) - 1)%Q.

(** The same product and sum on machine doubles. *)
Definition hash_dividend_f64 (seed : float) : float :=
  (1103515245 * seed + 12345)%float.
End RNG.

(** The linear congruential generator the constants come from. *)
Definition lcg (seed : Z) : Z := (RNG.a * seed + RNG.c) mod RNG.m.

Local Close Scope Z_scope.

(** ** Physics and collision *)

Inductive CollisionType : Type := top | bottom.

Definition CollisionType_eqb (c1 c2 : CollisionType) : bool :=
  match c1, c2 with
  | top, top | bottom, bottom => true
  | _, _ => false
  end.

(** [birdY <= 0] *)
Definition checkBirdHitsTop (birdY : Q) : bool := Qleb birdY 0.

(** [birdY + Birb.HEIGHT >= Viewport.CANVAS_HEIGHT] *)
Definition checkBirdHitsBottom (birdY : Q) : bool :=
  Qleb Viewport.CANVAS_HEIGHT (birdY + Birb.HEIGHT).

Definition checkBirdHitsPipe (birdY : Q) (pipe : Pipe) : bool :=
  let birdLeft := Constants.BIRD_X in
  let birdRight := Constants.BIRD_X + Birb.WIDTH in
  let birdTop := birdY in
  let birdBottom := birdY + Birb.HEIGHT in
  let pipeLeft := x pipe in
  let pipeRight := x pipe + Constants.PIPE_WIDTH in
  let gapTop := (gapY pipe - gapHeight pipe / 2) * Viewport.CANVAS_HEIGHT in
  let gapBottom := (gapY pipe + gapHeight pipe / 2) * Viewport.CANVAS_HEIGHT in
  (* Check x value first *)
  if Qltb pipeLeft birdRight && Qltb birdLeft pipeRight
  then (* then check y value *)
    Qltb birdTop gapTop || Qltb gapBottom birdBottom
  else false.

Definition getPipeCollisionType (birdY : Q) (pipe : Pipe) : CollisionType :=
  let birdCenter := birdY + Birb.HEIGHT / 2 in
  let gapCenter := gapY pipe * Viewport.CANVAS_HEIGHT in
  if Qltb birdCenter gapCenter then top else bottom.

(** Returns the pair [velocity, nextSeed]. *)
Definition generateBounceVelocity (seed : Z) (isUpward : bool) : Q * Z :=
  let nextSeed := RNG.hash seed in
  let randomValue := RNG.scale nextSeed in
  (* Random velocity between 3 and 6 *)
  let magnitude := 3 + Qabs randomValue * 3 in
  let velocity := if isUpward then - magnitude else magnitude in
  (velocity, nextSeed).

(** [flap]: the spread copy of [s] with [birdVelocity] replaced. *)
Definition flap (s : State) : State := {|
  birdY := birdY s;
  birdVelocity := Constants.FLAP_STRENGTH;
  gameTime := gameTime s;
  pipes := pipes s;
  score := score s;
  gameEnd := gameEnd s;
  lives := lives s;
  rngSeed := rngSeed s;
  invulnerableUntil := invulnerableUntil s;
  currentPath := currentPath s;
  ghostPath := ghostPath s;
  paused := paused s
|}.

(** ** The tick transition *)

(** [{ ...pipe, x: pipe.x - Constants.PIPE_SPEED }] *)
Definition movePipe (pipe : Pipe) : Pipe := {|
  id := id pipe;
  x := x pipe - Constants.PIPE_SPEED;
  gapY := gapY pipe;
  gapHeight := gapHeight pipe;
  passed := passed pipe;
  time := time pipe
|}.

(** [{ ...pipe, passed: true }] *)
Definition markPassed (pipe : Pipe) : Pipe := {|
  id := id pipe;
  x := x pipe;
  gapY := gapY pipe;
  gapHeight := gapHeight pipe;
  passed := true;
  time := time pipe
|}.

(** [!pipe.passed && pipe.x + Constants.PIPE_WIDTH < Constants.BIRD_X],
    the test the score filter and the marking map share. *)
Definition justPassed (pipe : Pipe) : bool :=
  negb (passed pipe) && Qltb (x pipe + Constants.PIPE_WIDTH) Constants.BIRD_X.

Definition isSome {A : Type} (o : option A) : bool :=
  match o with Some _ => true | None => false end.

Definition tick (allPipesLength : Z) (s : State) : State :=
  (* if game ended is flag as True or it's paused, we do not update the state *)
  if gameEnd s || paused s then s
  else
    let velocity := birdVelocity s + Constants.GRAVITY in
    let y := birdY s + velocity in
    let newTime := gameTime s + Constants.TICK_RATE_MS / 1000 in
    let movedPipes :=
      filter (fun pipe => Qltb (- Constants.PIPE_WIDTH) (x pipe))
             (map movePipe (pipes s)) in
    let pipesWithScore :=
      map (fun pipe => if justPassed pipe then markPassed pipe else pipe)
          movedPipes in
    let newlyPassed := Z.of_nat (List.length (filter justPassed movedPipes)) in
    let newScore := (score s + newlyPassed)%Z in
    let allPipesPassed :=
      (0 <? allPipesLength)%Z && (allPipesLength <=? newScore)%Z in
    let isVulnerable := Qleb (invulnerableUntil s) newTime in
    let hitTop := checkBirdHitsTop y in
    let hitBottom := checkBirdHitsBottom y in
    let hitPipe := find (fun pipe => checkBirdHitsPipe y pipe) (pipes s) in
    if isVulnerable && (hitTop || hitBottom || isSome hitPipe)
    then
      let shouldBounceUp :=
        if hitBottom then true
        else if hitTop then false
        else match hitPipe with
             | Some pipe =>
                 CollisionType_eqb (getPipeCollisionType y pipe) bottom
             | None => false
             end in
      let '(bounceVelocity, newSeed) :=
        generateBounceVelocity (rngSeed s) shouldBounceUp in
      {| birdY := y;
         birdVelocity := bounceVelocity;
         gameTime := newTime;
         pipes := pipesWithScore;
         score := newScore;
         gameEnd := (lives s - 1 <=? 0)%Z || allPipesPassed;
         lives := (lives s - 1)%Z;
         rngSeed := newSeed;
         invulnerableUntil := newTime + 2;
         currentPath := currentPath s ++ [y];
         ghostPath := ghostPath s;
         paused := paused s |}
    else
      (* normal update if no collision *)
      let clampedY :=
        Math_max 0 (Math_min (Viewport.CANVAS_HEIGHT - Birb.HEIGHT) y) in
      {| birdY := clampedY;
         birdVelocity := velocity;
         gameTime := newTime;
         pipes := pipesWithScore;
         score := newScore;
         gameEnd := allPipesPassed;
         lives := lives s;
         rngSeed := rngSeed s;
         invulnerableUntil := invulnerableUntil s;
         currentPath := currentPath s ++ [clampedY];
         ghostPath := ghostPath s;
         paused := paused s |}.

(** ** The other reducers of [state$] *)

(** The restart reducer: [s.gameEnd ? {...initialState, ghostPath:
    s.currentPath} : s]. *)
Definition restart (s : State) : State :=
  if gameEnd s
  then {| birdY := birdY initialState;
          birdVelocity := birdVelocity initialState;
          gameTime := gameTime initialState;
          pipes := pipes initialState;
          score := score initialState;
          gameEnd := gameEnd initialState;
          lives := lives initialState;
          rngSeed := rngSeed initialState;
          invulnerableUntil := invulnerableUntil initialState;
          currentPath := currentPath initialState;
          ghostPath := currentPath s;
          paused := paused initialState |}
  else s.

(** The pause reducer: [{...s, paused: !s.paused}]. *)
Definition pause (s : State) : State := {|
  birdY := birdY s;
  birdVelocity := birdVelocity s;
  gameTime := gameTime s;
  pipes := pipes s;
  score := score s;
  gameEnd := gameEnd s;
  lives := lives s;
  rngSeed := rngSeed s;
  invulnerableUntil := invulnerableUntil s;
  currentPath := currentPath s;
  ghostPath := ghostPath s;
  paused := negb (paused s)
|}.

(** The spawn reducer of one level pipe: [{...s, pipes: [...s.pipes, pipe]}]. *)
Definition pipeSpawn (pipe : Pipe) (s : State) : State := {|
  birdY := birdY s;
  birdVelocity := birdVelocity s;
  gameTime := gameTime s;
  pipes := pipes s ++ [pipe];
  score := score s;
  gameEnd := gameEnd s;
  lives := lives s;
  rngSeed := rngSeed s;
  invulnerableUntil := invulnerableUntil s;
  currentPath := currentPath s;
  ghostPath := ghostPath s;
  paused := paused s
|}.

(** The merged stream carries reducers; [scan ((s, f) => f(s), initialState)]
    folds them in arrival order. *)
Inductive Event : Type :=
| Tick | Flap | Restart | PipeSpawn (pipe : Pipe) | Pause.

Definition reducer (allPipesLength : Z) (e : Event) : State -> State :=
  match e with
  | Tick => tick allPipesLength
  | Flap => flap
  | Restart => restart
  | PipeSpawn pipe => pipeSpawn pipe
  | Pause => pause
  end.

Definition scan (allPipesLength : Z) (events : list Event) (s : State) : State :=
  fold_left (fun s e => reducer allPipesLength e s) events s.

(** ** Level loader

    Text is modelled as a list of 8-bit characters (the level files are
    ASCII).  A field read from text is a JavaScript value that need not be
    a finite number: [parseFloat] yields [NaN] on text with no numeric
    prefix, and destructuring a short array yields [undefined]. *)

Inductive JsValue : Type :=
| JsUndefined
| JsNaN
| JsInfinity (negative : bool)
| JsNum (q : Q).

(** A pipe as the loader builds it: [id], [x] and [passed] are set by the
    loader itself, the three remaining fields come from the text. *)
Record LevelPipe : Type := mkLevelPipe {
  l_id : Z;
  l_x : Q;
  l_gapY : JsValue;
  l_gapHeight : JsValue;
  l_passed : bool;
  l_time : JsValue
}.

(** The pipe the reducers work on, when all three fields are numbers. *)
Definition toPipe (p : LevelPipe) : option Pipe :=
  match l_gapY p, l_gapHeight p, l_time p with
  | JsNum g, JsNum h, JsNum t =>
      Some {| id := l_id p; x := l_x p; gapY := g; gapHeight := h;
              passed := l_passed p; time := t |}
  | _, _, _ => None
  end.

Definition text : Type := list ascii.

(** White space and line terminators of [String.prototype.trim] among
    the code units below 256: TAB, LF, VT, FF, CR, SPACE and the no-break
    space (160). *)
Definition isWhiteSpace (c : ascii) : bool :=
  match nat_of_ascii c with
  | 9%nat | 10%nat | 11%nat | 12%nat | 13%nat | 32%nat | 160%nat => true
  | _ => false
  end.

Fixpoint trimStart (s : text) : text :=
  match s with
  | c :: r => if isWhiteSpace c then trimStart r else s
  | [] => []
  end.

Definition trim (s : text) : text := rev (trimStart (rev (trimStart s))).

(** [s.split(sep)] for a one-character separator: never empty. *)
Fixpoint split (sep : ascii) (s : text) : list text :=
  match s with
  | [] => [[]]
  | c :: r =>
      if Ascii.eqb c sep then [] :: split sep r
      else match split sep r with
           | h :: t => (c :: h) :: t
           | [] => [[c]]
           end
  end.

Definition digitValue (c : ascii) : option Z :=
  let n := nat_of_ascii c in
  if (48 <=? n)%nat && (n <=? 57)%nat then Some (Z.of_nat n - 48)%Z else None.

(** Reads the longest run of decimal digits: its value continued from
    [acc], the number of digits read and the rest of the text. *)
Fixpoint readDigits (s : text) (acc : Z) (count : nat) : Z * nat * text :=
  match s with
  | c :: r =>
      match digitValue c with
      | Some d => readDigits r (10 * acc + d)%Z (S count)
      | None => (acc, count, s)
      end
  | [] => (acc, count, s)
  end.

Fixpoint startsWith (prefix s : text) : bool :=
  match prefix, s with
  | [], _ => true
  | p :: ps, c :: r => Ascii.eqb p c && startsWith ps r
  | _ :: _, [] => false
  end.

Definition readSign (s : text) : bool * text :=
  match s with
  | c :: r =>
      if Ascii.eqb c "-"%char then (true, r)
      else if Ascii.eqb c "+"%char then (false, r)
      else (false, s)
  | [] => (false, s)
  end.

(** The exponent part [e], [E] with an optional sign and at least one
    digit; an incomplete exponent is not part of the number. *)
Definition readExponent (s : text) : Z :=
  match s with
  | c :: r =>
      if Ascii.eqb c "e"%char || Ascii.eqb c "E"%char
      then let '(neg, r1) := readSign r in
           let '(e, n, _) := readDigits r1 0%Z 0%nat in
           match n with
           | O => 0%Z
           | S _ => if neg then (- e)%Z else e
           end
      else 0%Z
  | [] => 0%Z
  end.

(** [mantissa * 10^exponent] as a rational. *)
Definition decimal (negative : bool) (mantissa exponent : Z) : Q :=
  let v :=
    if (0 <=? exponent)%Z
    then inject_Z (mantissa * 10 ^ exponent)
    else inject_Z mantissa / inject_Z (10 ^ (- exponent)) in
  if negative then - v else v.

(** [parseFloat]: skips leading white space and reads the longest prefix
    that is a decimal literal ([StrDecimalLiteral]: an optional sign, then
    [Infinity] or digits with an optional fraction and exponent); [NaN] when
    there is none.  The value is the exact decimal (where the machine would
    round it to the nearest double). *)
Definition parseFloat (s : text) : JsValue :=
  let '(neg, s1) := readSign (trimStart s) in
  if startsWith (list_ascii_of_string "Infinity") s1 then JsInfinity neg
  else
    let '(i, ni, s2) := readDigits s1 0%Z 0%nat in
    match s2 with
    | c :: s3 =>
        if Ascii.eqb c "."%char
        then
          let '(m, nf, s4) := readDigits s3 i 0%nat in
          match ni, nf with
          | O, O => JsNaN
          | _, _ => JsNum (decimal neg m (readExponent s4 - Z.of_nat nf))
          end
        else
          match ni with
          | O => JsNaN
          | S _ => JsNum (decimal neg i (readExponent s2))
          end
    | [] =>
        match ni with
        | O => JsNaN
        | S _ => JsNum (decimal neg i 0)
        end
    end.

(** [array.map((line, index) => f(line, index))], indices from [index]. *)
Fixpoint mapi {A B : Type} (f : A -> nat -> B) (index : nat) (l : list A)
  : list B :=
  match l with
  | [] => []
  | a :: r => f a index :: mapi f (S index) r
  end.

(** The k-th element of an array destructuring pattern. *)
Definition element (values : list JsValue) (k : nat) : JsValue :=
  nth k values JsUndefined.

(** The callback of [parseCSV]: one pipe from one line. *)
Definition pipeOfLine (line : text) (index : nat) : LevelPipe :=
  let values := map (fun v => parseFloat (trim v)) (split ","%char line) in
  {| l_id := Z.of_nat index;
     l_x := Viewport.CANVAS_WIDTH;
     l_gapY := element values 0;
     l_gapHeight := element values 1;
     l_passed := false;
     l_time := element values 2 |}.

(** The data records: [csvContent.trim().split("\n").slice(1)]. *)
Definition dataLines (csvContent : text) : list text :=
  tl (split "010"%char (trim csvContent)).

Definition parseCSV (csvContent : text) : list LevelPipe :=
  mapi pipeOfLine 0 (dataLines csvContent).

Definition parseCSV_string (csvContent : string) : list LevelPipe :=
  parseCSV (list_ascii_of_string csvContent).

(** ** The local values of one tick

    The [const]s of the body of [tick], as functions of the incoming
    state, under the names they have there.  [tick_running] below shows
    that [tick] is built from exactly these. *)

Module Step.
Definition velocity (s : State) : Q := birdVelocity s + Constants.GRAVITY.
Definition y (s : State) : Q := birdY s + velocity s.
Definition newTime (s : State) : Q :=
  gameTime s + Constants.TICK_RATE_MS / 1000.
Definition movedPipes (s : State) : list Pipe :=
  filter (fun pipe => Qltb (- Constants.PIPE_WIDTH) (x pipe))
         (map movePipe (pipes s)).
Definition pipesWithScore (s : State) : list Pipe :=
  map (fun pipe => if justPassed pipe then markPassed pipe else pipe)
      (movedPipes s).
Definition newlyPassed (s : State) : Z :=
  Z.of_nat (List.length (filter justPassed (movedPipes s))).
Definition newScore (s : State) : Z := (score s + newlyPassed s)%Z.
Definition allPipesPassed (allPipesLength : Z) (s : State) : bool :=
  (0 <? allPipesLength)%Z && (allPipesLength <=? newScore s)%Z.
Definition isVulnerable (s : State) : bool :=
  Qleb (invulnerableUntil s) (newTime s).
Definition hitTop (s : State) : bool := checkBirdHitsTop (y s).
Definition hitBottom (s : State) : bool := checkBirdHitsBottom (y s).
Definition hitPipe (s : State) : option Pipe :=
  find (fun pipe => checkBirdHitsPipe (y s) pipe) (pipes s).
(** The guard of the collision branch: [isVulnerable] and then
    [hitTop || hitBottom || hitPipe]. *)
Definition collision (s : State) : bool :=
  isVulnerable s && (hitTop s || hitBottom s || isSome (hitPipe s)).
Definition shouldBounceUp (s : State) : bool :=
  if hitBottom s then true
  else if hitTop s then false
  else match hitPipe s with
       | Some pipe =>
           CollisionType_eqb (getPipeCollisionType (y s) pipe) bottom
       | None => false
       end.
Definition clampedY (s : State) : Q :=
  Math_max 0 (Math_min (Viewport.CANVAS_HEIGHT - Birb.HEIGHT) (y s)).
End Step.

(** The edges of a pipe's gap band, as [checkBirdHitsPipe] computes them. *)
Definition gapTop (pipe : Pipe) : Q :=
  (gapY pipe - gapHeight pipe / 2) * Viewport.CANVAS_HEIGHT.
Definition gapBottom (pipe : Pipe) : Q :=
  (gapY pipe + gapHeight pipe / 2) * Viewport.CANVAS_HEIGHT.

(** The horizontal half of [checkBirdHitsPipe]. *)
Definition overlapsHorizontally (pipe : Pipe) : bool :=
  Qltb (x pipe) (Constants.BIRD_X + Birb.WIDTH)
  && Qltb Constants.BIRD_X (x pipe + Constants.PIPE_WIDTH).

(** ** Predicates the statements use *)

(** Some pipe of the state carries the identity of the level pipe and is
    marked passed.  The marks exist only on the copies held in the state:
    no reducer ever writes to the level table. *)
Definition markedPassedIn (s : State) (levelPipe : Pipe) : bool :=
  existsb (fun pipe => (id pipe =? id levelPipe)%Z && passed pipe) (pipes s).

Definition everyLevelPipeMarked (allPipes : list Pipe) (s : State) : bool :=
  forallb (markedPassedIn s) allPipes.

(** A data record is malformed when it does not have exactly three
    comma-separated fields or one of them has no numeric reading. *)
Definition isNaN (v : JsValue) : bool :=
  match v with JsNaN => true | _ => false end.

Definition malformedRecord (line : text) : bool :=
  let fields := split ","%char line in
  negb (List.length fields =? 3)%nat
  || existsb (fun v => isNaN (parseFloat (trim v))) fields.

Definition hasMalformedRecord (csvContent : text) : bool :=
  existsb malformedRecord (dataLines csvContent).

(** ** The end-by-completion test of the earlier iteration

    There [tick] received the level table itself and compared the number
    of marked pipes among those in the state with the table's length:
    [allPipes.length > 0 &&
     pipesWithScore.filter(p => p.passed).length === allPipes.length]. *)
Module Earlier.
Definition allPipesPassed (allPipes pipesWithScore : list Pipe) : bool :=
  (0 <? List.length allPipes)%nat
  && (List.length (filter passed pipesWithScore)
      =? List.length allPipes)%nat.
End Earlier.

(** ** Vocabulary of the statements about scoring and loading *)

(** The marking callback of [pipesWithScore]. *)
Definition credit (pipe : Pipe) : Pipe :=
  if justPassed pipe then markPassed pipe else pipe.

(** The [passed] field goes from false to true between two versions of a
    pipe. *)
Definition flipped (before after : Pipe) : bool :=
  negb (passed before) && passed after.

(** An event sequence of one run: no restart in it. *)
Fixpoint noRestart (events : list Event) : bool :=
  match events with
  | [] => true
  | Restart :: _ => false
  | _ :: rest => noRestart rest
  end.

(** The value of the k-th comma-separated field of a line, [undefined]
    when the line has no such field. *)
Definition fieldValue (line : text) (k : nat) : JsValue :=
  match nth_error (split ","%char line) k with
  | Some v => parseFloat (trim v)
  | None => JsUndefined
  end.

(** An integer as a machine double, for comparing [fl] with the
    arithmetic of binary64. *)
Definition Z_to_f64 (z : Z) : float := PrimFloat.of_uint63 (Uint63.of_Z z).

(** ** Sample states, pipes and level texts *)

(** A state at its end: no life left, [gameEnd] set, with a recorded
    path. *)
Definition endedState (path : list Q) : State := {|
  birdY := birdY initialState;
  birdVelocity := 0;
  gameTime := gameTime initialState;
  pipes := [];
  score := 0;
  gameEnd := true;
  lives := 0;
  rngSeed := rngSeed initialState;
  invulnerableUntil := 0;
  currentPath := path;
  ghostPath := [];
  paused := false
|}.

(** A level pipe as the loader builds it, with identity [i]. *)
Definition levelPipe (i : Z) : Pipe := {|
  id := i; x := Viewport.CANVAS_WIDTH; gapY := 1 # 2; gapHeight := 1 # 5;
  passed := false; time := 2
|}.

(** The initial state with a given score and visible pipes. *)
Definition stateWith (points : Z) (visible : list Pipe) : State := {|
  birdY := birdY initialState;
  birdVelocity := 0;
  gameTime := 0;
  pipes := visible;
  score := points;
  gameEnd := false;
  lives := 3;
  rngSeed := 12345;
  invulnerableUntil := 0;
  currentPath := [];
  ghostPath := [];
  paused := false
|}.

(** A state falling onto the floor: the bottom of the bird reaches below
    the screen on the next tick. *)
Definition fallingState : State := {|
  birdY := 369;
  birdVelocity := 4;
  gameTime := 10;
  pipes := [];
  score := 0;
  gameEnd := false;
  lives := 3;
  rngSeed := 12345;
  invulnerableUntil := 0;
  currentPath := [];
  ghostPath := [];
  paused := false
|}.

(** A pipe around the bird's column with its gap high up (60 to 100). *)
Definition highGapPipe : Pipe := {|
  id := 0; x := 120; gapY := 1 # 4; gapHeight := 1 # 5;
  passed := false; time := 2
|}.

(** A state whose bird flies below the gap of [highGapPipe], behind a
    pipe that has just entered the screen. *)
Definition belowGapState : State := {|
  birdY := 250;
  birdVelocity := 0;
  gameTime := 5;
  pipes := [levelPipe 1; highGapPipe];
  score := 0;
  gameEnd := false;
  lives := 3;
  rngSeed := 12345;
  invulnerableUntil := 0;
  currentPath := [];
  ghostPath := [];
  paused := false
|}.

(** A pipe whose right edge passes the bird's position on the next
    move. *)
Definition passingPipe : Pipe := {|
  id := 0; x := 51; gapY := 1 # 2; gapHeight := 1 # 5;
  passed := false; time := 2
|}.

(** A pipe one unit right of the bird's right edge: the next move brings
    it over the bird. *)
Definition approachingPipe : Pipe := {|
  id := 0; x := 143; gapY := 1 # 4; gapHeight := 1 # 5;
  passed := false; time := 2
|}.

(** A pipe with an inverted gap: its height is negative. *)
Definition invertedGapPipe : Pipe := {|
  id := 0; x := 120; gapY := 1 # 2; gapHeight := - (2 # 5);
  passed := false; time := 2
|}.

Definition lineFeed : ascii := "010"%char.

(** Lines joined by line feeds, as a level file holds them. *)
Fixpoint joinLines (lines : list string) : text :=
  match lines with
  | [] => []
  | [line] => list_ascii_of_string line
  | line :: rest => list_ascii_of_string line ++ lineFeed :: joinLines rest
  end.

(** The level text of the specification's example. *)
Definition exampleLevel : text :=
  joinLines ["gapY,gapHeight,time"%string; "0.5,0.2,2"%string;
             "0.5,0.3,4"%string].

(** A level text with a short record holding a word, and a long record. *)
Definition malformedLevel : text :=
  joinLines ["gapY,gapHeight,time"%string; "0.5,abc"%string;
             "0.5,0.2,2,9"%string].

(** ** Spawning by time window

    [updatePipes] moves and retires the pipes like [tick] does and adds
    the level pipes whose spawn time is within one tick of [gameTime] and
    whose [id] is not among the current pipes.  The earlier iteration of
    [tick] called it; the final one keeps it beside the spawn timers. *)

Definition updatePipes (currentPipes allPipes : list Pipe) (gameTime : Q)
  : list Pipe :=
  (* Move existing pipes left, remove off-screen pipes *)
  let movedPipes :=
    filter (fun pipe => Qltb (- Constants.PIPE_WIDTH) (x pipe))
           (map movePipe currentPipes) in
  (* Check for new pipes to spawn at this time *)
  let newPipes :=
    filter (fun pipe =>
              Qltb (Qabs (time pipe - gameTime))
                   (Constants.TICK_RATE_MS / 1000)
              && negb (existsb (fun p => (id p =? id pipe)%Z) currentPipes))
           allPipes in
  movedPipes ++ newPipes.

(** ** The earlier iteration of the reducer

    The iteration before the pause key and the spawn timers: its state has
    no [paused] field, and its [tick] receives the level table, spawns by
    [updatePipes] and tests completion on the marks of the pipes in the
    state.  The collision functions and [generateBounceVelocity] are the
    same as in the final iteration. *)
Module EarlierTick.

Record State : Type := mkState {
  birdY : Q;
  birdVelocity : Q;
  gameTime : Q;
  pipes : list Pipe;
  score : Z;
  gameEnd : bool;
  lives : Z;
  rngSeed : Z;
  invulnerableUntil : Q;
  currentPath : list Q;
  ghostPath : list Q
}.

Definition initialState : State := {|
  birdY := Viewport.CANVAS_HEIGHT / 2 - Birb.HEIGHT / 2;
  birdVelocity := 0;
  pipes := [];
  gameTime := 0;
  score := 0;
  gameEnd := false;
  lives := 3;
  rngSeed := 12345;
  invulnerableUntil := 0;
  currentPath := [];
  ghostPath := []
|}.

Definition tick (allPipes : list Pipe) (s : State) : State :=
  if gameEnd s then s
  else
    let velocity := birdVelocity s + Constants.GRAVITY in
    let y := birdY s + velocity in
    let newTime := gameTime s + Constants.TICK_RATE_MS / 1000 in
    let updatedPipes := updatePipes (pipes s) allPipes newTime in
    let pipesWithScore :=
      map (fun pipe => if justPassed pipe then markPassed pipe else pipe)
          updatedPipes in
    let newlyPassed := Z.of_nat (List.length (filter justPassed updatedPipes)) in
    let newScore := (score s + newlyPassed)%Z in
    let allPipesPassed := Earlier.allPipesPassed allPipes pipesWithScore in
    let isVulnerable := Qleb (invulnerableUntil s) newTime in
    let hitTop := checkBirdHitsTop y in
    let hitBottom := checkBirdHitsBottom y in
    let hitPipe := find (fun pipe => checkBirdHitsPipe y pipe) (pipes s) in
    if isVulnerable && (hitTop || hitBottom || isSome hitPipe)
    then
      let shouldBounceUp :=
        if hitBottom then true
        else if hitTop then false
        else match hitPipe with
             | Some pipe =>
                 CollisionType_eqb (getPipeCollisionType y pipe) bottom
             | None => false
             end in
      let '(bounceVelocity, newSeed) :=
        generateBounceVelocity (rngSeed s) shouldBounceUp in
      {| birdY := y;
         birdVelocity := bounceVelocity;
         gameTime := newTime;
         pipes := pipesWithScore;
         score := newScore;
         gameEnd := (lives s - 1 <=? 0)%Z || allPipesPassed;
         lives := (lives s - 1)%Z;
         rngSeed := newSeed;
         invulnerableUntil := newTime + 2;
         currentPath := currentPath s ++ [y];
         ghostPath := ghostPath s |}
    else
      let clampedY :=
        Math_max 0 (Math_min (Viewport.CANVAS_HEIGHT - Birb.HEIGHT) y) in
      {| birdY := clampedY;
         birdVelocity := velocity;
         gameTime := newTime;
         pipes := pipesWithScore;
         score := newScore;
         gameEnd := allPipesPassed;
         lives := lives s;
         rngSeed := rngSeed s;
         invulnerableUntil := invulnerableUntil s;
         currentPath := currentPath s ++ [clampedY];
         ghostPath := ghostPath s |}.

Definition flap (s : State) : State := {|
  birdY := birdY s;
  birdVelocity := Constants.FLAP_STRENGTH;
  gameTime := gameTime s;
  pipes := pipes s;
  score := score s;
  gameEnd := gameEnd s;
  lives := lives s;
  rngSeed := rngSeed s;
  invulnerableUntil := invulnerableUntil s;
  currentPath := currentPath s;
  ghostPath := ghostPath s
|}.

Definition restart (s : State) : State :=
  if gameEnd s
  then {| birdY := birdY initialState;
          birdVelocity := birdVelocity initialState;
          gameTime := gameTime initialState;
          pipes := pipes initialState;
          score := score initialState;
          gameEnd := gameEnd initialState;
          lives := lives initialState;
          rngSeed := rngSeed initialState;
          invulnerableUntil := invulnerableUntil initialState;
          currentPath := currentPath initialState;
          ghostPath := currentPath s |}
  else s.

(** [merge(tick$, flap$, restart$)] folded by [scan]. *)
Inductive Event : Type := Tick | Flap | Restart.

Definition reducer (allPipes : list Pipe) (e : Event) : State -> State :=
  match e with
  | Tick => tick allPipes
  | Flap => flap
  | Restart => restart
  end.

Definition scan (allPipes : list Pipe) (events : list Event) (s : State)
  : State :=
  fold_left (fun s e => reducer allPipes e s) events s.

(** The pipes a tick of a state that is not ended stores. *)
Definition pipesAfterTick (allPipes : list Pipe) (s : State) : list Pipe :=
  map (fun pipe => if justPassed pipe then markPassed pipe else pipe)
      (updatePipes (pipes s) allPipes
                   (gameTime s + Constants.TICK_RATE_MS / 1000)).

End EarlierTick.

(** Every pipe of the table has a copy in the list that is marked
    passed. *)
Definition everyPipeMarkedIn (allPipes visible : list Pipe) : Prop :=
  forall levelPipe, In levelPipe allPipes ->
    exists pipe, In pipe visible
                 /\ id pipe = id levelPipe /\ passed pipe = true.

(** The pipes of a state come from the table, each at most once. *)
Definition fromTable (allPipes visible : list Pipe) : Prop :=
  NoDup (map id visible) /\ incl (map id visible) (map id allPipes).

(** ** What the renderer draws

    The numbers [render] puts into the attributes of the two rectangles of
    a pipe and of the bird's image, before they are printed into the
    attribute strings. *)

Record Rect : Type := mkRect {
  rectX : Q;
  rectY : Q;
  rectWidth : Q;
  rectHeight : Q
}.

(** The rectangle [pipeTop] of [render]. *)
Definition pipeTop (pipe : Pipe) : Rect :=
  let gapTop := gapY pipe - gapHeight pipe / 2 in
  {| rectX := x pipe;
     rectY := 0;
     rectWidth := Constants.PIPE_WIDTH;
     rectHeight := gapTop * Viewport.CANVAS_HEIGHT |}.

(** The rectangle [pipeBottom] of [render]. *)
Definition pipeBottom (pipe : Pipe) : Rect :=
  let gapBottom := gapY pipe + gapHeight pipe / 2 in
  {| rectX := x pipe;
     rectY := gapBottom * Viewport.CANVAS_HEIGHT;
     rectWidth := Constants.PIPE_WIDTH;
     rectHeight := (1 - gapBottom) * Viewport.CANVAS_HEIGHT |}.

(** The box of the image [birdImg] of [render]. *)
Definition birdImg (birdY : Q) : Rect :=
  {| rectX := Constants.BIRD_X;
     rectY := birdY;
     rectWidth := Birb.WIDTH;
     rectHeight := Birb.HEIGHT |}.

(** Two boxes share interior points. *)
Definition boxesOverlap (a b : Rect) : bool :=
  Qltb (rectX a) (rectX b + rectWidth b)
  && Qltb (rectX b) (rectX a + rectWidth a)
  && Qltb (rectY a) (rectY b + rectHeight b)
  && Qltb (rectY b) (rectY a + rectHeight a).

(** ** Vocabulary of the statements about runs *)

(** [k] ticks in a row. *)
Definition ticks (k : nat) : list Event := repeat Tick k.

(** The events of a session spawn pipes of the level table, which the
    loader builds with [passed = false]. *)
Definition spawnsUnpassed (e : Event) : bool :=
  match e with
  | PipeSpawn pipe => negb (passed pipe)
  | _ => true
  end.

Definition isSpawn (e : Event) : bool :=
  match e with PipeSpawn _ => true | _ => false end.

Definition isRestart (e : Event) : bool :=
  match e with Restart => true | _ => false end.

Definition isTick (e : Event) : bool :=
  match e with Tick => true | _ => false end.

(** The number of ticks among the events. *)
Definition tickCount (events : list Event) : nat :=
  List.length (filter isTick events).

(** The number of pipes of a list not yet marked passed. *)
Definition unpassedCount (l : list Pipe) : Z :=
  Z.of_nat (List.length (filter (fun pipe => negb (passed pipe)) l)).

(** The number of occurrences of a character in a text. *)
Definition occurrences (c : ascii) (s : text) : nat :=
  List.length (filter (Ascii.eqb c) s).

(** A pipe stretched over the bird's column whose gap is far below the
    bird: hit from above the gap. *)
Definition lowGapPipe : Pipe := {|
  id := 0; x := 120; gapY := 3 # 4; gapHeight := 1 # 5;
  passed := false; time := 2
|}.

(** A state whose bird flies above the gap of [lowGapPipe]. *)
Definition aboveGapState : State := {|
  birdY := 100;
  birdVelocity := 0;
  gameTime := 5;
  pipes := [lowGapPipe];
  score := 0;
  gameEnd := false;
  lives := 1;
  rngSeed := 12345;
  invulnerableUntil := 0;
  currentPath := [];
  ghostPath := [];
  paused := false
|}.

(** A state on the floor during its invulnerability window. *)
Definition shieldedState : State := {|
  birdY := 370;
  birdVelocity := 5;
  gameTime := 10;
  pipes := [highGapPipe];
  score := 0;
  gameEnd := false;
  lives := 2;
  rngSeed := 1406932606;
  invulnerableUntil := 12;
  currentPath := [];
  ghostPath := [];
  paused := false
|}.

(** ** Invariants of a session *)

(** The bounds a session keeps on seed, lives and score. *)
Definition withinBounds (s : State) : Prop :=
  (0 <= rngSeed s < 2 ^ 31)%Z
  /\ (0 <= lives s <= 3)%Z
  /\ (gameEnd s = false -> 1 <= lives s)%Z
  /\ (0 <= score s)%Z.

(** Every pipe marked passed has its right edge left of the bird. *)
Definition passedBehind (s : State) : Prop :=
  forall pipe, In pipe (pipes s) -> passed pipe = true ->
    x pipe + Constants.PIPE_WIDTH < Constants.BIRD_X.

(** An ended state has no life left or a score that reached the table
    length. *)
Definition endedForAReason (allPipesLength : Z) (s : State) : Prop :=
  gameEnd s = true ->
  (lives s <= 0)%Z \/ (0 < allPipesLength /\ allPipesLength <= score s)%Z.

(** ** Marks of a run

    The level table itself is never written to: a pipe is marked on the
    copy the state holds, on the tick that finds it just passed.  The
    marks of a run are the identities of the pipes marked since the run
    began (the start of the session or the last restart of an ended
    state). *)


(** The identities of the pipes a running tick marks passed. *)
Definition marksOfTick (s : State) : list Z :=
  map id (filter justPassed (Step.movedPipes s)).






(** A table pipe of the earlier iteration that spawns on the first tick
    and is passed on the second. *)
Definition earlyPipe : Pipe := {|
  id := 0; x := 51; gapY := 1 # 2; gapHeight := 1 # 5;
  passed := false; time := 1 # 50
|}.

(** * Properties *)

(** ** Comparisons *)

Lemma Qleb_le (a b : Q) : Qleb a b = true <-> a <= b.
Proof. unfold Qleb. apply Qle_bool_iff. Qed.

Lemma Qltb_lt (a b : Q) : Qltb a b = true <-> a < b.
Proof.
  unfold Qltb. rewrite negb_true_iff. split.
  - intros H. apply Qnot_le_lt. intros Hle.
    apply Qle_bool_iff in Hle. congruence.
  - intros H. destruct (Qle_bool b a) eqn:E; [|reflexivity].
    apply Qle_bool_iff in E. exfalso. apply (Qlt_not_le _ _ H E).
Qed.

Lemma Qleb_nle (a b : Q) : Qleb a b = false <-> b < a.
Proof.
  rewrite <- Qltb_lt. unfold Qltb, Qleb.
  destruct (Qle_bool a b); simpl; split; congruence.
Qed.

Lemma Qltb_nlt (a b : Q) : Qltb a b = false <-> b <= a.
Proof.
  rewrite <- Qleb_le. unfold Qltb, Qleb.
  destruct (Qle_bool b a); simpl; split; congruence.
Qed.

(** Turns boolean comparisons of the goal and context into order facts. *)
Ltac order_facts :=
  repeat match goal with
  | H : Qleb _ _ = true |- _ => apply Qleb_le in H
  | H : Qleb _ _ = false |- _ => apply Qleb_nle in H
  | H : Qltb _ _ = true |- _ => apply Qltb_lt in H
  | H : Qltb _ _ = false |- _ => apply Qltb_nlt in H
  | |- Qleb _ _ = true => apply Qleb_le
  | |- Qleb _ _ = false => apply Qleb_nle
  | |- Qltb _ _ = true => apply Qltb_lt
  | |- Qltb _ _ = false => apply Qltb_nlt
  end.

(** ** Shape of a running tick *)

(** On a state that is neither ended nor paused, [tick] is one of two
    records built from the local values of [Step]. *)
Lemma tick_running (allPipesLength : Z) (s : State) :
  gameEnd s = false -> paused s = false ->
  tick allPipesLength s =
  if Step.collision s
  then
    {| birdY := Step.y s;
       birdVelocity :=
         fst (generateBounceVelocity (rngSeed s) (Step.shouldBounceUp s));
       gameTime := Step.newTime s;
       pipes := Step.pipesWithScore s;
       score := Step.newScore s;
       gameEnd := (lives s - 1 <=? 0)%Z
                  || Step.allPipesPassed allPipesLength s;
       lives := (lives s - 1)%Z;
       rngSeed :=
         snd (generateBounceVelocity (rngSeed s) (Step.shouldBounceUp s));
       invulnerableUntil := Step.newTime s + 2;
       currentPath := currentPath s ++ [Step.y s];
       ghostPath := ghostPath s;
       paused := paused s |}
  else
    {| birdY := Step.clampedY s;
       birdVelocity := Step.velocity s;
       gameTime := Step.newTime s;
       pipes := Step.pipesWithScore s;
       score := Step.newScore s;
       gameEnd := Step.allPipesPassed allPipesLength s;
       lives := lives s;
       rngSeed := rngSeed s;
       invulnerableUntil := invulnerableUntil s;
       currentPath := currentPath s ++ [Step.clampedY s];
       ghostPath := ghostPath s;
       paused := paused s |}.
Proof.
  intros Hend Hpaused. unfold tick. rewrite Hend, Hpaused. simpl orb. cbv iota.
  reflexivity.
Qed.

(** ** Flap *)

(** C1, as stated, fails: on a state with [gameEnd = true] the flap reducer
    does not return the state unchanged, it sets [birdVelocity] to the flap
    impulse.  [flap] has no guard on [gameEnd]. *)
Lemma flap_on_ended_state_sets_velocity :
  gameEnd (endedState []) = true
  /\ flap (endedState []) <> endedState []
  /\ birdVelocity (flap (endedState [])) = Constants.FLAP_STRENGTH.
Proof.
  split; [reflexivity|]. split; [|reflexivity].
  intros H. apply (f_equal birdVelocity) in H. discriminate H.
Qed.

(** C1, amended: for every state, whatever [gameEnd] and [paused] are,
    flap returns the state with [birdVelocity] replaced by the fixed negative
    constant [FLAP_STRENGTH = -8] and every other field unchanged; the
    result does not depend on the velocity before. *)
Theorem flap_sets_velocity_only (s : State) :
  birdVelocity (flap s) = Constants.FLAP_STRENGTH
  /\ Constants.FLAP_STRENGTH = -8
  /\ Constants.FLAP_STRENGTH < 0
  /\ birdY (flap s) = birdY s
  /\ gameTime (flap s) = gameTime s
  /\ pipes (flap s) = pipes s
  /\ score (flap s) = score s
  /\ gameEnd (flap s) = gameEnd s
  /\ lives (flap s) = lives s
  /\ rngSeed (flap s) = rngSeed s
  /\ invulnerableUntil (flap s) = invulnerableUntil s
  /\ currentPath (flap s) = currentPath s
  /\ ghostPath (flap s) = ghostPath s
  /\ paused (flap s) = paused s
  /\ flap (flap s) = flap s.
Proof.
  destruct s. unfold flap. simpl.
  repeat split. 
Qed.

(** ** Tick on a paused or ended state *)

(** C4: on a state with [paused = true] or [gameEnd = true] the tick
    transition returns the state itself, so no field changes: [gameTime]
    does not advance, [birdY] and [birdVelocity] are not integrated, no
    pipe moves, and [score], [lives] and [currentPath] stay. *)
Theorem tick_paused_or_ended_is_identity (allPipesLength : Z) (s : State) :
  paused s = true \/ gameEnd s = true ->
  tick allPipesLength s = s.
Proof.
  intros [H | H]; unfold tick; rewrite H.
  - rewrite orb_true_r. reflexivity.
  - reflexivity.
Qed.

Lemma tick_paused_or_ended_is_identity_witness :
  tick 2 (pause initialState) = pause initialState
  /\ tick 2 (endedState [185]) = endedState [185].
Proof.
  split.
  - apply (tick_paused_or_ended_is_identity 2 (pause initialState)).
    left. reflexivity.
  - apply (tick_paused_or_ended_is_identity 2 (endedState [185])).
    right. reflexivity.
Defined.

(** ** Restart *)

(** C5: on a state with [gameEnd = true] and [currentPath = P], restart
    yields the initial state in every field except [ghostPath], which is
    [P]; on a state with [gameEnd = false], restart returns the state
    unchanged. *)
Theorem restart_carries_ghost (s : State) :
  (gameEnd s = true ->
     restart s =
     {| birdY := birdY initialState;
        birdVelocity := birdVelocity initialState;
        gameTime := gameTime initialState;
        pipes := pipes initialState;
        score := score initialState;
        gameEnd := gameEnd initialState;
        lives := lives initialState;
        rngSeed := rngSeed initialState;
        invulnerableUntil := invulnerableUntil initialState;
        currentPath := currentPath initialState;
        ghostPath := currentPath s;
        paused := paused initialState |})
  /\ (gameEnd s = false -> restart s = s).
Proof.
  split; intros H; unfold restart; rewrite H; reflexivity.
Qed.

Lemma restart_carries_ghost_witness :
  ghostPath (restart (endedState [185; 190])) = [185; 190]
  /\ lives (restart (endedState [185; 190])) = 3%Z
  /\ restart (flap initialState) = flap initialState.
Proof.
  split; [|split].
  - rewrite (proj1 (restart_carries_ghost (endedState [185; 190])));
      reflexivity.
  - rewrite (proj1 (restart_carries_ghost (endedState [185; 190])));
      reflexivity.
  - apply (proj2 (restart_carries_ghost (flap initialState))). reflexivity.
Defined.

(** ** Seeded bounce *)

Section Rounding.
Local Open Scope Z_scope.

Lemma fl_exact (z : Z) : Z.abs z < 2 ^ 53 -> fl z = z.
Proof.
  intros H. unfold fl. destruct (Z.ltb_spec (Z.abs z) (2 ^ 53)); [reflexivity|lia].
Qed.

Lemma fl_nonneg (z : Z) : 0 <= z -> 0 <= fl z.
Proof.
  intros H. unfold fl.
  destruct (Z.ltb_spec (Z.abs z) (2 ^ 53)) as [|Hbig]; [assumption|].
  rewrite Z.abs_eq in * by assumption.
  assert (Hz : 0 < z) by lia.
  rewrite (Z.sgn_pos z Hz), Z.mul_1_l.
  set (e := Z.log2 z - 52).
  assert (He : 0 < 2 ^ e).
  { apply Z.pow_pos_nonneg; [lia|].
    assert (53 <= Z.log2 z) by (apply Z.log2_le_pow2; lia).
    subst e. lia. }
  assert (Hq : 0 <= z / 2 ^ e) by (apply Z.div_pos; lia).
  apply Z.mul_nonneg_nonneg; [|lia].
  destruct (z mod 2 ^ e <? 2 ^ (e - 1)); [assumption|].
  destruct (2 ^ (e - 1) <? z mod 2 ^ e); [lia|].
  destruct (Z.even (z / 2 ^ e)); lia.
Qed.

Lemma hash_range (seed : Z) : 0 <= seed -> 0 <= RNG.hash seed < RNG.m.
Proof.
  intros H. unfold RNG.hash.
  assert (Ha : 0 <= fl (RNG.a * seed)).
  { apply fl_nonneg. unfold RNG.a. lia. }
  assert (Hs : 0 <= fl (fl (RNG.a * seed) + RNG.c)).
  { apply fl_nonneg. unfold RNG.c. lia. }
  apply Z.rem_bound_pos; [assumption|]. unfold RNG.m. lia.
Qed.

(** While the product and the sum stay below [2^53] nothing is rounded
    and [hash] is the linear congruential step. *)
Lemma hash_exact (seed : Z) :
  0 <= seed -> RNG.a * seed + RNG.c < 2 ^ 53 -> RNG.hash seed = lcg seed.
Proof.
  intros H Hsmall. unfold RNG.hash, lcg.
  assert (Hp : 0 <= RNG.a * seed) by (unfold RNG.a; lia).
  assert (Hc : 0 <= RNG.c) by (unfold RNG.c; lia).
  rewrite (fl_exact (RNG.a * seed)) by (rewrite Z.abs_eq; lia).
  rewrite (fl_exact (RNG.a * seed + RNG.c)) by (rewrite Z.abs_eq; lia).
  apply Z.rem_mod_nonneg; [lia|]. unfold RNG.m. lia.
Qed.
End Rounding.

Lemma scale_range (h : Z) :
  (0 <= h < RNG.m)%Z -> -1 <= RNG.scale h <= 1.
Proof.
  intros [H0 H1]. unfold RNG.scale, RNG.m in *.
  change (0x80000000 - 1)%Z with 2147483647%Z.
  unfold Qle, Qminus, Qdiv, Qplus, Qmult, Qinv, Qopp, inject_Z.
  cbn -[Z.mul Z.add].
  split; lia.
Qed.

Lemma Qabs_bound (r : Q) : -1 <= r <= 1 -> 0 <= Qabs r <= 1.
Proof.
  intros H. split; [apply Qabs_nonneg|].
  apply Qabs_Qle_condition. exact H.
Qed.

(** C6, as stated, fails on its seed equation.  The first collision of a
    session turns the initial seed 12345 into 1406932606, still the value
    of the linear congruential step.  At the second collision the product
    [1103515245 * 1406932606] needs 61 bits; the double holding it is a
    multiple of 512, and [hash] returns 654583808 where the congruential
    step gives 654583775.  The machine doubles agree with [fl] here. *)
Lemma bounce_seed_leaves_the_congruential_sequence :
  snd (generateBounceVelocity (rngSeed initialState) true) = 1406932606%Z
  /\ (0 <= 1406932606 < RNG.m)%Z
  /\ snd (generateBounceVelocity 1406932606 true) = 654583808%Z
  /\ ((RNG.a * 1406932606 + RNG.c) mod 2 ^ 31 = 654583775)%Z
  /\ snd (generateBounceVelocity 1406932606 true)
     <> ((RNG.a * 1406932606 + RNG.c) mod 2 ^ 31)%Z
  /\ f64_to_Z (RNG.hash_dividend_f64 1406932606%float)
     = Some (fl (fl (RNG.a * 1406932606) + RNG.c)).
Proof.
  repeat split; try (vm_compute; reflexivity); try (vm_compute; discriminate).
Qed.

(** The rounding model against machine doubles: the dividend of [hash]
    computed on binary64 numbers is [fl (fl (a * seed) + c)], on the seeds
    of the first collisions of a session and around the bound of exact
    products. *)
Example fl_agrees_with_machine_doubles :
  forallb
    (fun seed =>
       match f64_to_Z (RNG.hash_dividend_f64 (Z_to_f64 seed)) with
       | Some z => (z =? fl (fl (RNG.a * seed) + RNG.c))%Z
       | None => false
       end)
    [12345; 1406932606; 654583808; 1358247936; 2138638336; 8162278;
     8162279; 2147483647]%Z
  = true.
Proof. vm_compute. reflexivity. Qed.

(** C6, amended: for every seed and either bounce direction, the synthesis
    advances the generator exactly once and returns the new seed with the
    velocity; the magnitude of the velocity is [3 + |drawn| * 3] for the
    drawn value [2 * nextSeed / (2^31 - 1) - 1], and the velocity is
    negative exactly when the bounce is upward and positive exactly when it
    is downward.  The new seed is the remainder modulo [2^31] of
    [1103515245 * seed + 12345] as computed on doubles (product and sum
    each rounded to 53 significant bits).  For an integer seed in
    [[0, 2^31)]: it equals [(1103515245 * seed + 12345) mod 2^31] whenever
    that sum is below [2^53]; it lies in [[0, 2^31)]; the drawn value lies
    in [[-1, 1]]; and the magnitude lies in [[3, 6]]. *)
Theorem bounce_velocity_synthesis (seed : Z) (isUpward : bool) :
  let velocity := fst (generateBounceVelocity seed isUpward) in
  let nextSeed := snd (generateBounceVelocity seed isUpward) in
  nextSeed = Z.rem (fl (fl (1103515245 * seed) + 12345)) (2 ^ 31)
  /\ Qabs velocity == 3 + Qabs (RNG.scale nextSeed) * 3
  /\ (velocity < 0 <-> isUpward = true)
  /\ (0 < velocity <-> isUpward = false)
  /\ ((0 <= seed < 2 ^ 31)%Z ->
      ((1103515245 * seed + 12345 < 2 ^ 53)%Z ->
       nextSeed = ((1103515245 * seed + 12345) mod 2 ^ 31)%Z)
      /\ (0 <= nextSeed < 2 ^ 31)%Z
      /\ -1 <= RNG.scale nextSeed <= 1
      /\ 3 <= Qabs velocity <= 6).
Proof.
  cbv zeta. unfold generateBounceVelocity. cbn [fst snd].
  pose proof (Qabs_nonneg (RNG.scale (RNG.hash seed))) as Hnonneg.
  set (r := Qabs (RNG.scale (RNG.hash seed))) in *.
  assert (Habs : Qabs (if isUpward then - (3 + r * 3) else 3 + r * 3)
                 == 3 + r * 3).
  { destruct isUpward.
    - rewrite Qabs_opp. apply Qabs_pos. lra.
    - apply Qabs_pos. lra. }
  split; [reflexivity|].
  split; [exact Habs|].
  split; [destruct isUpward; split; intros H;
          reflexivity || discriminate || lra|].
  split; [destruct isUpward; split; intros H;
          reflexivity || discriminate || lra|].
  intros [Hlo Hhi].
  pose proof (hash_range seed Hlo) as Hrange.
  pose proof (scale_range _ Hrange) as Hscale.
  pose proof (Qabs_bound _ Hscale) as [_ Hb1]. fold r in Hb1.
  split; [intros Hsmall; apply (hash_exact seed Hlo Hsmall)|].
  split; [exact Hrange|].
  split; [exact Hscale|].
  rewrite Habs. split; lra.
Qed.

Lemma bounce_velocity_synthesis_witness :
  snd (generateBounceVelocity 12345 true) = 1406932606%Z
  /\ 3 <= Qabs (fst (generateBounceVelocity 12345 true)) <= 6.
Proof.
  destruct (bounce_velocity_synthesis 12345 true) as (_ & _ & _ & _ & Hin).
  destruct Hin as (Hlcg & _ & _ & Hmag); [lia|].
  split.
  - rewrite Hlcg; [reflexivity | lia].
  - exact Hmag.
Defined.

(** ** End by completion *)

(** The test itself reads the score, not the marks.  On states that no
    session reaches the two can differ: with a level table of one pipe, a
    running state whose score is already 1 and that holds no pipe is
    ended by the tick, and a running state that holds the level's pipe
    marked passed, with score 0, is not.  On the states of a session the
    score is the number of pipes marked in the run (see the section on
    completion in a session). *)
Lemma completion_follows_the_score_not_the_marks :
  let allPipes := [levelPipe 0] in
  let counted := stateWith 1 [] in
  let marked := stateWith 0 [markPassed (levelPipe 0)] in
  (gameEnd counted = false /\ paused counted = false
   /\ gameEnd (tick (Z.of_nat (List.length allPipes)) counted) = true
   /\ everyLevelPipeMarked allPipes
        (tick (Z.of_nat (List.length allPipes)) counted) = false)
  /\ (gameEnd marked = false /\ paused marked = false
      /\ gameEnd (tick (Z.of_nat (List.length allPipes)) marked) = false
      /\ everyLevelPipeMarked allPipes
           (tick (Z.of_nat (List.length allPipes)) marked) = true).
Proof.
  vm_compute. repeat split.
Qed.

(** The completion flag as the tick computes it: for every state that is
    neither ended nor paused, the tick sets [gameEnd] by completion exactly
    when the table length it was given is positive and the score after
    this tick's credits (the incoming score plus the pipes newly marked on
    this tick) has reached that length; the only other way it sets
    [gameEnd] is a collision that takes the last life. *)
Theorem tick_completion_by_score (allPipesLength : Z) (s : State) :
  gameEnd s = false -> paused s = false ->
  gameEnd (tick allPipesLength s)
  = (Step.collision s && (lives s - 1 <=? 0)%Z)
    || Step.allPipesPassed allPipesLength s
  /\ (Step.allPipesPassed allPipesLength s = true
      <-> (0 < allPipesLength
           /\ allPipesLength <= score (tick allPipesLength s))%Z)
  /\ score (tick allPipesLength s)
     = (score s
        + Z.of_nat (List.length (filter justPassed (Step.movedPipes s))))%Z.
Proof.
  intros Hend Hpaused. rewrite (tick_running _ _ Hend Hpaused).
  assert (Hall : Step.allPipesPassed allPipesLength s = true
                 <-> (0 < allPipesLength
                      /\ allPipesLength <= Step.newScore s)%Z).
  { unfold Step.allPipesPassed.
    rewrite andb_true_iff, Z.ltb_lt, Z.leb_le. reflexivity. }
  destruct (Step.collision s); cbn [gameEnd score andb];
    (split; [reflexivity|]); (split; [exact Hall | reflexivity]).
Qed.

Lemma tick_completion_by_score_witness :
  gameEnd (tick 1 (stateWith 1 [])) = true
  /\ score (tick 1 (stateWith 1 [])) = 1%Z.
Proof.
  destruct (tick_completion_by_score 1 (stateWith 1 []))
    as (Hend & _ & Hscore); [reflexivity | reflexivity |].
  split; [rewrite Hend | rewrite Hscore]; reflexivity.
Defined.

(** The earlier test compared a number of marked pipes with the table's
    length as well; two marked copies of one pipe satisfy it for a table
    of two. *)
Lemma earlier_test_is_a_count_too :
  Earlier.allPipesPassed
    [levelPipe 0; levelPipe 1]
    [markPassed (levelPipe 0); markPassed (levelPipe 0)] = true.
Proof. reflexivity. Qed.

(** ** Boundary clamp *)

Lemma clampedY_spec (s : State) :
  let bound := Viewport.CANVAS_HEIGHT - Birb.HEIGHT in
  0 <= Step.clampedY s <= bound
  /\ (0 <= Step.y s <= bound -> Step.clampedY s == Step.y s)
  /\ (Step.y s < 0 -> Step.clampedY s == 0)
  /\ (bound < Step.y s -> Step.clampedY s == bound).
Proof.
  cbv zeta. unfold Step.clampedY, Math_max, Math_min.
  assert (Hb : 0 <= Viewport.CANVAS_HEIGHT - Birb.HEIGHT)
    by (unfold Viewport.CANVAS_HEIGHT, Birb.HEIGHT; lra).
  set (bound := Viewport.CANVAS_HEIGHT - Birb.HEIGHT) in *.
  destruct (Qleb bound (Step.y s)) eqn:E1.
  - assert (E0 : Qleb 0 bound = true) by (order_facts; exact Hb).
    rewrite E0. order_facts.
    repeat split; try lra; intros; lra.
  - destruct (Qleb 0 (Step.y s)) eqn:E0; order_facts;
      repeat split; try lra; intros; lra.
Qed.

(** Without a collision on a vulnerable tick the integrated position lies
    strictly inside the screen, and the clamp returns it as it is. *)
Lemma vulnerable_no_collision_inside (s : State) :
  Step.isVulnerable s = true -> Step.collision s = false ->
  0 < Step.y s < Viewport.CANVAS_HEIGHT - Birb.HEIGHT
  /\ Step.clampedY s = Step.y s.
Proof.
  intros Hv Hc. unfold Step.collision in Hc. rewrite Hv in Hc.
  cbn [andb] in Hc. apply orb_false_iff in Hc as [Hc _].
  apply orb_false_iff in Hc as [Ht Hb].
  unfold Step.hitTop, checkBirdHitsTop in Ht.
  unfold Step.hitBottom, checkBirdHitsBottom in Hb.
  order_facts.
  assert (Hin : 0 < Step.y s < Viewport.CANVAS_HEIGHT - Birb.HEIGHT)
    by (split; lra).
  split; [exact Hin|].
  unfold Step.clampedY, Math_max, Math_min.
  assert (E1 : Qleb (Viewport.CANVAS_HEIGHT - Birb.HEIGHT) (Step.y s) = false)
    by (order_facts; lra).
  rewrite E1.
  assert (E0 : Qleb 0 (Step.y s) = true) by (order_facts; lra).
  rewrite E0. reflexivity.
Qed.

(** C8: on a state that is neither ended nor paused, a tick that registers
    no collision stores the integrated position clamped to
    [[0, viewportHeight - playerHeight]], a tick that registers a collision
    stores the integrated position [birdY + (birdVelocity + GRAVITY)]
    itself, unclamped, and in both cases the stored position is the one
    appended to [currentPath]. *)
Theorem clamp_only_without_collision (allPipesLength : Z) (s : State) :
  gameEnd s = false -> paused s = false ->
  Step.y s = birdY s + (birdVelocity s + Constants.GRAVITY)
  /\ (Step.collision s = false ->
      birdY (tick allPipesLength s)
      = Math_max 0 (Math_min (Viewport.CANVAS_HEIGHT - Birb.HEIGHT) (Step.y s))
      /\ 0 <= birdY (tick allPipesLength s)
           <= Viewport.CANVAS_HEIGHT - Birb.HEIGHT
      /\ currentPath (tick allPipesLength s)
         = currentPath s ++ [birdY (tick allPipesLength s)])
  /\ (Step.collision s = true ->
      birdY (tick allPipesLength s) = Step.y s
      /\ currentPath (tick allPipesLength s) = currentPath s ++ [Step.y s]).
Proof.
  intros Hend Hpaused. rewrite (tick_running _ _ Hend Hpaused).
  split; [reflexivity|]. split; intros Hc; rewrite Hc; cbn [birdY currentPath].
  - split; [reflexivity|]. split; [|reflexivity].
    apply (clampedY_spec s).
  - split; reflexivity.
Qed.

Lemma clamp_only_without_collision_witness :
  (birdY (tick 2 initialState) == 1855 # 10
   /\ currentPath (tick 2 initialState) = [birdY (tick 2 initialState)])
  /\ (birdY (tick 2 fallingState) == 3735 # 10
      /\ Viewport.CANVAS_HEIGHT - Birb.HEIGHT < birdY (tick 2 fallingState)
      /\ currentPath (tick 2 fallingState) = [birdY (tick 2 fallingState)]).
Proof.
  split.
  - destruct (clamp_only_without_collision 2 initialState)
      as (_ & Hno & _); [reflexivity | reflexivity |].
    destruct Hno as (Hy & _ & Hpath); [reflexivity|].
    split; [rewrite Hy; reflexivity | exact Hpath].
  - destruct (clamp_only_without_collision 2 fallingState)
      as (_ & _ & Hyes); [reflexivity | reflexivity |].
    destruct Hyes as (Hy & Hpath); [reflexivity|].
    split; [rewrite Hy; reflexivity|].
    split; [rewrite Hy; reflexivity|].
    rewrite Hy. exact Hpath.
Defined.

(** ** Pipe hit below the gap *)

Lemma find_first_match {A : Type} (f : A -> bool) (pre post : list A) (a : A) :
  (forall b, In b pre -> f b = false) -> f a = true ->
  find f (pre ++ a :: post) = Some a.
Proof.
  intros Hpre Ha. induction pre as [|b pre IH]; simpl.
  - rewrite Ha. reflexivity.
  - rewrite (Hpre b (or_introl eq_refl)).
    apply IH. intros b' Hb'. apply Hpre. right. exact Hb'.
Qed.

Lemma bounce_up_is_negative (seed : Z) :
  fst (generateBounceVelocity seed true) < 0.
Proof.
  unfold generateBounceVelocity. cbn [fst].
  pose proof (Qabs_nonneg (RNG.scale (RNG.hash seed))) as H.
  lra.
Qed.

Lemma bounce_down_is_positive (seed : Z) :
  0 < fst (generateBounceVelocity seed false).
Proof.
  unfold generateBounceVelocity. cbn [fst].
  pose proof (Qabs_nonneg (RNG.scale (RNG.hash seed))) as H.
  lra.
Qed.





(** The lower bound on the gap height matters: with an inverted gap the
    same geometry is classified [top]. *)
Remark inverted_gap_classifies_top :
  overlapsHorizontally invertedGapPipe = true
  /\ gapBottom invertedGapPipe <= 150
  /\ checkBirdHitsPipe 150 invertedGapPipe = true
  /\ getPipeCollisionType 150 invertedGapPipe = top.
Proof.
  repeat split; vm_compute; discriminate.
Qed.

(** ** Passing credit and score *)

Lemma credit_flips_iff (pipe : Pipe) :
  flipped pipe (credit pipe) = justPassed pipe.
Proof.
  unfold flipped, credit. destruct (justPassed pipe) eqn:E.
  - unfold justPassed in E. apply andb_true_iff in E as [E _].
    rewrite E. reflexivity.
  - destruct (passed pipe); reflexivity.
Qed.

Lemma credited_count (l : list Pipe) :
  List.length (filter justPassed l)
  = List.length
      (filter (fun pair => flipped (fst pair) (snd pair))
              (combine l (map credit l))).
Proof.
  induction l as [|pipe l IH]; [reflexivity|].
  cbn [map combine filter fst snd]. rewrite credit_flips_iff.
  destruct (justPassed pipe); cbn [List.length]; rewrite IH; reflexivity.
Qed.

Lemma in_combine_credit (l : list Pipe) (before after : Pipe) :
  In (before, after) (combine l (map credit l)) ->
  In before l /\ after = credit before.
Proof.
  induction l as [|pipe l IH]; cbn [map combine In]; [intros []|].
  intros [H | H].
  - inversion H; subst. split; [left|]; reflexivity.
  - destruct (IH H) as [Hin Heq]. split; [right|]; assumption.
Qed.

Lemma in_movedPipes (s : State) (pipe : Pipe) :
  In pipe (Step.movedPipes s) ->
  exists incoming,
    In incoming (pipes s)
    /\ pipe = movePipe incoming
    /\ - Constants.PIPE_WIDTH < x incoming - Constants.PIPE_SPEED.
Proof.
  unfold Step.movedPipes. intros H. apply filter_In in H as [H Hx].
  apply in_map_iff in H as (incoming & Heq & Hin).
  exists incoming. subst pipe. cbn [movePipe x] in Hx. order_facts.
  repeat split; assumption.
Qed.

Lemma tick_score (allPipesLength : Z) (s : State) :
  gameEnd s = false -> paused s = false ->
  score (tick allPipesLength s) = Step.newScore s
  /\ pipes (tick allPipesLength s) = map credit (Step.movedPipes s).
Proof.
  intros Hend Hpaused. rewrite (tick_running _ _ Hend Hpaused).
  destruct (Step.collision s); split; reflexivity.
Qed.

Lemma tick_stopped (allPipesLength : Z) (s : State) :
  gameEnd s || paused s = true -> tick allPipesLength s = s.
Proof. intros H. unfold tick. rewrite H. reflexivity. Qed.

Lemma tick_score_monotone (allPipesLength : Z) (s : State) :
  (score s <= score (tick allPipesLength s))%Z.
Proof.
  destruct (gameEnd s) eqn:Hend.
  - rewrite tick_stopped by (rewrite Hend; reflexivity). lia.
  - destruct (paused s) eqn:Hpaused.
    + rewrite tick_stopped by (rewrite Hend, Hpaused; reflexivity). lia.
    + rewrite (proj1 (tick_score allPipesLength s Hend Hpaused)).
      unfold Step.newScore, Step.newlyPassed. lia.
Qed.

Lemma scan_score_monotone (allPipesLength : Z) (events : list Event) :
  noRestart events = true ->
  forall s, (score s <= score (scan allPipesLength events s))%Z.
Proof.
  unfold scan. induction events as [|e events IH]; intros Hno s.
  - simpl. lia.
  - cbn [fold_left]. destruct e; cbn [noRestart] in Hno; try discriminate;
      specialize (IH Hno); cbn [reducer].
    + pose proof (tick_score_monotone allPipesLength s).
      specialize (IH (tick allPipesLength s)). lia.
    + apply (IH (flap s)).
    + apply (IH (pipeSpawn pipe s)).
    + apply (IH (pause s)).
Qed.

(** C9: within one run (an event sequence with no restart) the score
    never decreases.  On every tick of a running state the score grows by
    the number of pipes whose [passed] field goes from false to true on
    that tick, one point each; a pipe's field goes from false to true
    exactly when it was not yet passed and its right edge, after this
    tick's move, is left of the bird's horizontal position; and a pipe
    already passed stays as it is, so it is never credited again. *)
Theorem score_credits_each_pass_once
    (allPipesLength : Z) (s : State) :
  (forall events, noRestart events = true ->
     (score s <= score (scan allPipesLength events s))%Z)
  /\ (score s <= score (tick allPipesLength s))%Z
  /\ (gameEnd s = false -> paused s = false ->
      let before := Step.movedPipes s in
      let after := pipes (tick allPipesLength s) in
      List.length after = List.length before
      /\ score (tick allPipesLength s)
         = (score s
            + Z.of_nat
                (List.length
                   (filter (fun pair => flipped (fst pair) (snd pair))
                           (combine before after))))%Z
      /\ (forall pipe pipe', In (pipe, pipe') (combine before after) ->
            (exists incoming, In incoming (pipes s)
               /\ id pipe = id incoming
               /\ passed pipe = passed incoming
               /\ x pipe = x incoming - Constants.PIPE_SPEED)
            /\ id pipe' = id pipe
            /\ x pipe' = x pipe
            /\ (flipped pipe pipe' = true
                <-> passed pipe = false
                    /\ x pipe + Constants.PIPE_WIDTH < Constants.BIRD_X)
            /\ (passed pipe = true -> pipe' = pipe))).
Proof.
  split; [intros events Hno; apply scan_score_monotone; exact Hno|].
  split; [apply tick_score_monotone|].
  intros Hend Hpaused. cbv zeta.
  destruct (tick_score allPipesLength s Hend Hpaused) as [Hscore Hpipes].
  rewrite Hscore, Hpipes. split; [apply length_map|].
  split.
  - unfold Step.newScore, Step.newlyPassed. rewrite credited_count.
    reflexivity.
  - intros pipe pipe' Hin.
    apply in_combine_credit in Hin as [Hin Heq]. subst pipe'.
    split.
    { destruct (in_movedPipes s pipe Hin) as (incoming & Hi & Heq & _).
      exists incoming. subst pipe. repeat split; assumption || reflexivity. }
    split; [unfold credit; destruct (justPassed pipe); reflexivity|].
    split; [unfold credit; destruct (justPassed pipe); reflexivity|].
    split.
    + rewrite credit_flips_iff. unfold justPassed.
      rewrite andb_true_iff, negb_true_iff, Qltb_lt. reflexivity.
    + intros Hpassed. unfold credit, justPassed. rewrite Hpassed.
      reflexivity.
Qed.

Lemma score_credits_each_pass_once_witness :
  score (tick 2 (stateWith 0 [passingPipe])) = 1%Z
  /\ (score (stateWith 0 [passingPipe])
      <= score (scan 2 [Tick; Flap; Tick] (stateWith 0 [passingPipe])))%Z.
Proof.
  destruct (score_credits_each_pass_once 2 (stateWith 0 [passingPipe]))
    as (Hrun & _ & Htick).
  split.
  - destruct Htick as (_ & Hscore & _); [reflexivity | reflexivity |].
    rewrite Hscore. reflexivity.
  - apply Hrun. reflexivity.
Defined.

(** ** Which pipes the collision test sees *)

Lemma isSome_find {A : Type} (f : A -> bool) (l : list A) :
  isSome (find f l) = existsb f l.
Proof.
  induction l as [|a l IH]; [reflexivity|].
  cbn [find existsb]. destruct (f a); [reflexivity | exact IH].
Qed.

(** C10: on a vulnerable tick of a running state the collision test
    compares the newly integrated position [y] with the pipes of the
    incoming state, at their positions before this tick's move, while the
    state the tick produces holds the moved pipes; the test therefore lags
    the stored pipes by one move.  The second part exhibits the lag: a
    tick that registers no collision although the bird at [y] overlaps a
    pipe of the state it produces. *)
Theorem collision_test_uses_incoming_pipes (allPipesLength : Z) :
  (forall s : State,
     gameEnd s = false -> paused s = false ->
     Step.isVulnerable s = true ->
     Step.y s = birdY s + (birdVelocity s + Constants.GRAVITY)
     /\ Step.collision s
        = checkBirdHitsTop (Step.y s)
          || checkBirdHitsBottom (Step.y s)
          || existsb (checkBirdHitsPipe (Step.y s)) (pipes s)
     /\ lives (tick allPipesLength s)
        = (if Step.collision s then lives s - 1 else lives s)%Z
     /\ pipes (tick allPipesLength s)
        = map credit
            (filter (fun pipe => Qltb (- Constants.PIPE_WIDTH) (x pipe))
                    (map movePipe (pipes s))))
  /\ (exists s : State,
        gameEnd s = false /\ paused s = false
        /\ Step.isVulnerable s = true
        /\ Step.collision s = false
        /\ lives (tick allPipesLength s) = lives s
        /\ existsb (checkBirdHitsPipe (Step.y s))
                   (pipes (tick allPipesLength s)) = true).
Proof.
  split.
  - intros s Hend Hpaused Hv. rewrite (tick_running _ _ Hend Hpaused).
    split; [reflexivity|]. split.
    + unfold Step.collision. rewrite Hv. cbn [andb].
      unfold Step.hitPipe. rewrite isSome_find. reflexivity.
    + destruct (Step.collision s); split; reflexivity.
  - exists (stateWith 0 [approachingPipe]).
    repeat split; reflexivity.
Qed.

Lemma collision_test_uses_incoming_pipes_witness :
  lives (tick 2 belowGapState) = 2%Z
  /\ pipes (tick 2 (stateWith 0 [approachingPipe]))
     = [movePipe approachingPipe].
Proof.
  destruct (collision_test_uses_incoming_pipes 2) as [Hall _].
  split.
  - destruct (Hall belowGapState) as (_ & _ & Hl & _);
      [reflexivity | reflexivity | reflexivity |].
    rewrite Hl. reflexivity.
  - destruct (Hall (stateWith 0 [approachingPipe])) as (_ & _ & _ & Hp);
      [reflexivity | reflexivity | reflexivity |].
    rewrite Hp. reflexivity.
Defined.

(** ** Level loader *)

Lemma mapi_length {A B : Type} (f : A -> nat -> B) (l : list A) :
  forall index, List.length (mapi f index l) = List.length l.
Proof.
  induction l as [|a l IH]; intros index; [reflexivity|].
  cbn [mapi List.length]. rewrite IH. reflexivity.
Qed.

Lemma mapi_nth_error {A B : Type} (f : A -> nat -> B) (l : list A) :
  forall index i a,
    nth_error l i = Some a ->
    nth_error (mapi f index l) i = Some (f a (index + i)%nat).
Proof.
  induction l as [|b l IH]; intros index i a H.
  - destruct i; discriminate H.
  - destruct i as [|i]; cbn [mapi nth_error] in *.
    + inversion H; subst. rewrite Nat.add_0_r. reflexivity.
    + rewrite (IH (S index) i a H). f_equal. f_equal. lia.
Qed.

Lemma element_fieldValue (line : text) (k : nat) :
  element (map (fun v => parseFloat (trim v)) (split ","%char line)) k
  = fieldValue line k.
Proof.
  unfold element, fieldValue.
  generalize (split ","%char line) as fields. intros fields. revert k.
  induction fields as [|v fields IH]; intros [|k]; cbn; try reflexivity.
  apply IH.
Qed.

(** The example of the specification: two well-formed records. *)
Example parseCSV_two_records :
  map toPipe
      (parseCSV exampleLevel)
  = [ Some {| id := 0; x := Viewport.CANVAS_WIDTH; gapY := 5 # 10;
              gapHeight := 2 # 10; passed := false; time := 2 |};
      Some {| id := 1; x := Viewport.CANVAS_WIDTH; gapY := 5 # 10;
              gapHeight := 3 # 10; passed := false; time := 4 |} ].
Proof. vm_compute. reflexivity. Qed.

(** C3, as stated, fails: the loader has no error result.  A level text
    whose first record has two fields, the second of them not numeric, and
    whose second record has four fields, is loaded as two pipes: the first
    with [NaN] as gap height and [undefined] as spawn time, the second from
    the first three fields of its record. *)
Lemma malformed_level_is_loaded :
  let csvContent := malformedLevel in
  hasMalformedRecord csvContent = true
  /\ forallb malformedRecord (dataLines csvContent) = true
  /\ exists first second,
       parseCSV csvContent = [first; second]
       /\ l_gapY first = JsNum (5 # 10)
       /\ l_gapHeight first = JsNaN
       /\ l_time first = JsUndefined
       /\ toPipe first = None
       /\ toPipe second
          = Some {| id := 1; x := Viewport.CANVAS_WIDTH; gapY := 5 # 10;
                    gapHeight := 2 # 10; passed := false; time := 2 |}.
Proof.
  cbv zeta. split; [vm_compute; reflexivity|].
  split; [vm_compute; reflexivity|].
  eexists. eexists. split; [vm_compute; reflexivity|].
  repeat split.
Qed.

(** C3, amended: the level loader never fails.  For every level text it
    returns one pipe per data record (the lines after the header of the
    trimmed text), in order; the pipe of record [i] has [id = i],
    [x = CANVAS_WIDTH], [passed = false], and its gap centre, gap height
    and spawn time are the readings of the first three comma-separated
    fields of the record: [NaN] for a field with no numeric prefix and
    [undefined] for a field the record does not have; fields after the
    third are ignored. *)
Theorem parseCSV_one_pipe_per_record (csvContent : text) :
  List.length (parseCSV csvContent) = List.length (dataLines csvContent)
  /\ forall (i : nat) (line : text),
       nth_error (dataLines csvContent) i = Some line ->
       nth_error (parseCSV csvContent) i
       = Some {| l_id := Z.of_nat i;
                 l_x := Viewport.CANVAS_WIDTH;
                 l_gapY := fieldValue line 0;
                 l_gapHeight := fieldValue line 1;
                 l_passed := false;
                 l_time := fieldValue line 2 |}.
Proof.
  unfold parseCSV. split; [apply mapi_length|].
  intros i line H. rewrite (mapi_nth_error _ _ 0%nat i line H).
  unfold pipeOfLine. rewrite !element_fieldValue. reflexivity.
Qed.

Lemma parseCSV_one_pipe_per_record_witness :
  nth_error (parseCSV malformedLevel) 0
  = Some {| l_id := 0; l_x := Viewport.CANVAS_WIDTH;
            l_gapY := JsNum (5 # 10); l_gapHeight := JsNaN;
            l_passed := false; l_time := JsUndefined |}.
Proof.
  rewrite (proj2 (parseCSV_one_pipe_per_record malformedLevel)
                 0%nat (list_ascii_of_string "0.5,abc"));
    [vm_compute; reflexivity | vm_compute; reflexivity].
Defined.

(** * Further properties of the reducers *)

(** ** Lives *)

Lemma tick_lives (allPipesLength : Z) (s : State) :
  gameEnd s = false -> paused s = false ->
  lives (tick allPipesLength s)
  = (if Step.collision s then lives s - 1 else lives s)%Z
  /\ (Step.collision s = true ->
      gameEnd (tick allPipesLength s)
      = (lives s - 1 <=? 0)%Z || Step.allPipesPassed allPipesLength s).
Proof.
  intros Hend Hpaused. rewrite (tick_running _ _ Hend Hpaused).
  destruct (Step.collision s); split; try reflexivity; discriminate.
Qed.

(** X1.  Life bound: a tick never adds a life; it takes exactly one life when
    it registers a collision and none otherwise; and a tick that takes the
    last life ends the game on the same transition. *)
Theorem tick_life_bound (allPipesLength : Z) (s : State) :
  (lives (tick allPipesLength s) = lives s
   \/ lives (tick allPipesLength s) = lives s - 1)%Z
  /\ (gameEnd s = false -> paused s = false ->
      (lives (tick allPipesLength s) = lives s - 1)%Z
      <-> Step.collision s = true)
  /\ ((lives (tick allPipesLength s) < lives s)%Z ->
      (lives (tick allPipesLength s) <= 0)%Z ->
      gameEnd (tick allPipesLength s) = true).
Proof.
  destruct (gameEnd s || paused s) eqn:Hstop.
  - rewrite (tick_stopped _ _ Hstop).
    apply orb_true_iff in Hstop.
    split; [left; reflexivity|].
    split; [intros Hend Hpaused; destruct Hstop; congruence | lia].
  - apply orb_false_iff in Hstop as [Hend Hpaused].
    destruct (tick_lives allPipesLength s Hend Hpaused) as [Hl Hg].
    rewrite Hl. destruct (Step.collision s) eqn:Hc.
    + split; [right; reflexivity|].
      split; [intros _ _; split; reflexivity|].
      intros _ Hzero. rewrite (Hg eq_refl).
      apply orb_true_iff. left. apply Z.leb_le. exact Hzero.
    + split; [left; reflexivity|].
      split; [intros _ _; split; [lia | discriminate] | lia].
Qed.

Lemma tick_life_bound_witness :
  lives (tick 2 aboveGapState) = 0%Z
  /\ gameEnd (tick 2 aboveGapState) = true.
Proof.
  destruct (tick_life_bound 2 aboveGapState) as (_ & Hiff & Hlast).
  assert (Hl : lives (tick 2 aboveGapState) = (lives aboveGapState - 1)%Z).
  { apply Hiff; reflexivity. }
  split.
  - rewrite Hl. reflexivity.
  - apply Hlast; rewrite Hl; vm_compute; congruence.
Defined.

(** ** Invulnerability *)

(** X2.  Invulnerability gating: on a tick of a running state whose
    vulnerability test ([newTime >= invulnerableUntil]) is false, no
    collision is registered whatever the geometry is, even with the bird
    on the floor or inside a pipe: no life is taken, the seed and the
    window stay, the velocity is the integrated one and the position is
    the clamped one. *)
Theorem tick_while_invulnerable (allPipesLength : Z) (s : State) :
  gameEnd s = false -> paused s = false ->
  Step.isVulnerable s = false ->
  Step.collision s = false
  /\ lives (tick allPipesLength s) = lives s
  /\ rngSeed (tick allPipesLength s) = rngSeed s
  /\ invulnerableUntil (tick allPipesLength s) = invulnerableUntil s
  /\ birdVelocity (tick allPipesLength s)
     = birdVelocity s + Constants.GRAVITY
  /\ birdY (tick allPipesLength s) = Step.clampedY s
  /\ currentPath (tick allPipesLength s)
     = currentPath s ++ [Step.clampedY s].
Proof.
  intros Hend Hpaused Hv.
  assert (Hc : Step.collision s = false).
  { unfold Step.collision. rewrite Hv. reflexivity. }
  rewrite (tick_running _ _ Hend Hpaused), Hc.
  repeat split.
Qed.

Lemma tick_while_invulnerable_witness :
  checkBirdHitsBottom (Step.y shieldedState) = true
  /\ lives (tick 2 shieldedState) = 2%Z
  /\ birdY (tick 2 shieldedState) == 370.
Proof.
  destruct (tick_while_invulnerable 2 shieldedState)
    as (_ & Hl & _ & _ & _ & Hy & _);
    [reflexivity | reflexivity | reflexivity |].
  split; [reflexivity|]. split; [rewrite Hl | rewrite Hy]; reflexivity.
Defined.

Lemma scan_cons (allPipesLength : Z) (e : Event) (events : list Event)
    (s : State) :
  scan allPipesLength (e :: events) s
  = scan allPipesLength events (reducer allPipesLength e s).
Proof. reflexivity. Qed.

Lemma scan_app (allPipesLength : Z) (events events' : list Event)
    (s : State) :
  scan allPipesLength (events ++ events') s
  = scan allPipesLength events' (scan allPipesLength events s).
Proof. unfold scan. apply fold_left_app. Qed.

(** Writes the length of a tick, [TICK_RATE_MS / 1000], as a fraction. *)
Ltac tick_length :=
  unfold Step.newTime, Constants.TICK_RATE_MS, Qdiv in *;
  change (/ 1000) with (1 # 1000) in *.

(** A tick inside the window, running or not: lives, seed and window
    stay and the time advances by at most one tick. *)
Lemma tick_shielded (allPipesLength : Z) (s : State) :
  gameTime s + Constants.TICK_RATE_MS / 1000 < invulnerableUntil s ->
  lives (tick allPipesLength s) = lives s
  /\ rngSeed (tick allPipesLength s) = rngSeed s
  /\ invulnerableUntil (tick allPipesLength s) = invulnerableUntil s
  /\ gameTime (tick allPipesLength s)
     <= gameTime s + Constants.TICK_RATE_MS / 1000.
Proof.
  intros Hshield. destruct (gameEnd s || paused s) eqn:Hstop.
  - rewrite (tick_stopped _ _ Hstop). repeat split.
    tick_length. lra.
  - apply orb_false_iff in Hstop as [Hend Hpaused].
    assert (Hc : Step.collision s = false).
    { unfold Step.collision.
      assert (Hv : Step.isVulnerable s = false).
      { unfold Step.isVulnerable, Step.newTime. order_facts. exact Hshield. }
      rewrite Hv. reflexivity. }
    rewrite (tick_running _ _ Hend Hpaused), Hc.
    cbn [lives rngSeed invulnerableUntil gameTime]. repeat split.
    tick_length. lra.
Qed.

Lemma shielded_run (allPipesLength : Z) (events : list Event) :
  noRestart events = true ->
  forall s : State,
    gameTime s
    + inject_Z (Z.of_nat (tickCount events))
      * (Constants.TICK_RATE_MS / 1000)
    < invulnerableUntil s ->
    lives (scan allPipesLength events s) = lives s
    /\ rngSeed (scan allPipesLength events s) = rngSeed s.
Proof.
  induction events as [|e events IH]; intros Hno s Hshield.
  - split; reflexivity.
  - rewrite scan_cons.
    destruct e; cbn [noRestart] in Hno; try discriminate;
      specialize (IH Hno); cbn [reducer].
    + unfold tickCount in Hshield. cbn [filter isTick List.length] in Hshield.
      fold (tickCount events) in Hshield.
      rewrite Nat2Z.inj_succ, <- Z.add_1_r, inject_Z_plus in Hshield.
      assert (Hk : 0 <= inject_Z (Z.of_nat (tickCount events))).
      { change 0 with (inject_Z 0). rewrite <- Zle_Qle. lia. }
      change (inject_Z 1) with 1 in Hshield.
      set (k := inject_Z (Z.of_nat (tickCount events))) in *.
      assert (Hone : gameTime s + Constants.TICK_RATE_MS / 1000
                     < invulnerableUntil s) by (tick_length; lra).
      destruct (tick_shielded allPipesLength s Hone) as (Hl & Hr & Hi & Ht).
      destruct (IH (tick allPipesLength s)) as [Hl' Hr'].
      { rewrite Hi. tick_length. lra. }
      rewrite Hl', Hr'. split; assumption.
    + apply (IH (flap s)). exact Hshield.
    + apply (IH (pipeSpawn pipe s)). exact Hshield.
    + apply (IH (pause s)). exact Hshield.
Qed.

(** X3.  The invulnerability window: after a tick that registers a collision,
    no life is taken and the seed is not advanced during the next 99
    ticks, whatever flaps, pauses and spawns come between them. *)
Theorem no_life_lost_for_99_ticks_after_collision
    (allPipesLength : Z) (s : State) (events : list Event) :
  gameEnd s = false -> paused s = false ->
  Step.collision s = true ->
  noRestart events = true ->
  (tickCount events <= 99)%nat ->
  lives (scan allPipesLength (Tick :: events) s) = (lives s - 1)%Z
  /\ rngSeed (scan allPipesLength (Tick :: events) s)
     = rngSeed (tick allPipesLength s).
Proof.
  intros Hend Hpaused Hc Hno Hk. rewrite scan_cons. cbn [reducer].
  destruct (shielded_run allPipesLength events Hno (tick allPipesLength s))
    as [Hl Hr].
  - rewrite (tick_running _ _ Hend Hpaused), Hc.
    cbn [gameTime invulnerableUntil].
    assert (Hq : inject_Z (Z.of_nat (tickCount events)) <= 99).
    { change 99 with (inject_Z 99). rewrite <- Zle_Qle. lia. }
    set (k := inject_Z (Z.of_nat (tickCount events))) in *.
    tick_length. lra.
  - rewrite Hl, Hr. split; [|reflexivity].
    rewrite (proj1 (tick_lives allPipesLength s Hend Hpaused)), Hc.
    reflexivity.
Qed.

Lemma no_life_lost_for_99_ticks_after_collision_witness :
  lives (scan 2 (Tick :: Flap :: ticks 99) belowGapState) = 2%Z.
Proof.
  apply (no_life_lost_for_99_ticks_after_collision
           2 belowGapState (Flap :: ticks 99));
    reflexivity.
Defined.

(** ** Bounce direction *)

Lemma top_and_bottom_exclude (birdY : Q) :
  checkBirdHitsTop birdY = true -> checkBirdHitsBottom birdY = false.
Proof.
  unfold checkBirdHitsTop, checkBirdHitsBottom. intros H. order_facts.
  unfold Viewport.CANVAS_HEIGHT, Birb.HEIGHT. lra.
Qed.

(** X4.  Screen edges decide the bounce before any pipe is looked at: on a
    vulnerable tick of a running state, reaching the bottom of the screen
    gives a collision with an upward (negative) velocity, and reaching the
    top gives one with a downward (positive) velocity, whatever pipes the
    state holds.  The two cannot happen on the same tick. *)
Theorem screen_edge_decides_bounce (allPipesLength : Z) (s : State) :
  gameEnd s = false -> paused s = false ->
  Step.isVulnerable s = true ->
  (checkBirdHitsBottom (Step.y s) = true ->
   Step.collision s = true /\ birdVelocity (tick allPipesLength s) < 0)
  /\ (checkBirdHitsTop (Step.y s) = true ->
      Step.collision s = true /\ 0 < birdVelocity (tick allPipesLength s))
  /\ ~ (checkBirdHitsTop (Step.y s) = true
        /\ checkBirdHitsBottom (Step.y s) = true).
Proof.
  intros Hend Hpaused Hv. rewrite (tick_running _ _ Hend Hpaused).
  unfold Step.collision, Step.shouldBounceUp, Step.hitTop, Step.hitBottom.
  rewrite Hv. split; [|split].
  - intros Hb. rewrite Hb, orb_true_r. cbn [andb orb birdVelocity].
    split; [reflexivity | apply bounce_up_is_negative].
  - intros Ht. rewrite (top_and_bottom_exclude _ Ht), Ht.
    cbn [andb orb birdVelocity].
    split; [reflexivity | apply bounce_down_is_positive].
  - intros [Ht Hb]. rewrite (top_and_bottom_exclude _ Ht) in Hb.
    discriminate Hb.
Qed.

Lemma screen_edge_decides_bounce_witness :
  birdVelocity (tick 2 fallingState) < 0.
Proof.
  destruct (screen_edge_decides_bounce 2 fallingState) as (Hb & _ & _);
    [reflexivity | reflexivity | reflexivity |].
  apply Hb. reflexivity.
Defined.

(** A bird whose bottom is at or above the upper edge of the gap of a pipe
    it overlaps horizontally hits that pipe, and the hit is on the top
    part. *)
Lemma above_gap_hits_top (birdY : Q) (pipe : Pipe) :
  overlapsHorizontally pipe = true ->
  birdY + Birb.HEIGHT <= gapTop pipe ->
  0 <= gapHeight pipe ->
  checkBirdHitsPipe birdY pipe = true
  /\ getPipeCollisionType birdY pipe = top.
Proof.
  intros Hx Habove Hheight. unfold overlapsHorizontally in Hx.
  unfold gapTop in Habove. split.
  - unfold checkBirdHitsPipe. cbv zeta. rewrite Hx.
    apply orb_true_iff. left. order_facts.
    unfold Birb.HEIGHT in *. lra.
  - unfold getPipeCollisionType. cbv zeta.
    assert (E : Qltb (birdY + Birb.HEIGHT / 2)
                     (gapY pipe * Viewport.CANVAS_HEIGHT) = true).
    { order_facts. unfold Birb.HEIGHT, Viewport.CANVAS_HEIGHT, Qdiv in *.
      change (/ 2) with (1 # 2) in *. lra. }
    rewrite E. reflexivity.
Qed.

(** X5.  Pipe hit above the gap: on a vulnerable tick of a running state, when
    the bird at its new position hits neither screen edge and the first
    pipe it hits is one it overlaps horizontally with its bottom at or
    above the upper edge of the gap (gap height not negative), the tick
    takes a life, classifies the hit [top] and the resulting velocity is
    positive: the bird bounces downward. *)
Theorem pipe_hit_above_gap_bounces_down
    (allPipesLength : Z) (s : State) (pre post : list Pipe) (pipe : Pipe) :
  gameEnd s = false -> paused s = false ->
  Step.isVulnerable s = true ->
  checkBirdHitsTop (Step.y s) = false ->
  checkBirdHitsBottom (Step.y s) = false ->
  pipes s = pre ++ pipe :: post ->
  (forall q, In q pre -> checkBirdHitsPipe (Step.y s) q = false) ->
  overlapsHorizontally pipe = true ->
  Step.y s + Birb.HEIGHT <= gapTop pipe ->
  0 <= gapHeight pipe ->
  getPipeCollisionType (Step.y s) pipe = top
  /\ 0 < birdVelocity (tick allPipesLength s)
  /\ lives (tick allPipesLength s) = (lives s - 1)%Z.
Proof.
  intros Hend Hpaused Hv Htop Hbottom Hpipes Hfirst Hx Habove Hheight.
  destruct (above_gap_hits_top _ _ Hx Habove Hheight) as [Hhit Htype].
  assert (Hfind : Step.hitPipe s = Some pipe).
  { unfold Step.hitPipe. rewrite Hpipes.
    apply find_first_match; assumption. }
  assert (Hc : Step.collision s = true).
  { unfold Step.collision, Step.hitTop, Step.hitBottom.
    rewrite Hv, Htop, Hbottom, Hfind. reflexivity. }
  assert (Hup : Step.shouldBounceUp s = false).
  { unfold Step.shouldBounceUp, Step.hitTop, Step.hitBottom.
    rewrite Htop, Hbottom, Hfind, Htype. reflexivity. }
  rewrite (tick_running _ _ Hend Hpaused), Hc, Hup.
  cbn [birdVelocity lives].
  split; [exact Htype|]. split; [apply bounce_down_is_positive | reflexivity].
Qed.

Lemma pipe_hit_above_gap_bounces_down_witness :
  0 < birdVelocity (tick 2 aboveGapState).
Proof.
  destruct (pipe_hit_above_gap_bounces_down
              2 aboveGapState [] [] lowGapPipe) as (_ & Hv & _).
  - reflexivity.
  - reflexivity.
  - reflexivity.
  - reflexivity.
  - reflexivity.
  - reflexivity.
  - intros q [].
  - reflexivity.
  - vm_compute. discriminate.
  - vm_compute. discriminate.
  - exact Hv.
Defined.

(** ** Invariants of a session *)

Lemma scan_invariant (inv : State -> Prop) (ok : Event -> bool)
    (allPipesLength : Z) :
  (forall e s, ok e = true -> inv s -> inv (reducer allPipesLength e s)) ->
  forall events, forallb ok events = true ->
  forall s, inv s -> inv (scan allPipesLength events s).
Proof.
  intros Hstep events. induction events as [|e events IH]; intros Hok s Hs.
  - exact Hs.
  - cbn [forallb] in Hok. apply andb_true_iff in Hok as [He Hok].
    rewrite scan_cons. apply (IH Hok). apply Hstep; assumption.
Qed.

Lemma forallb_always_true {A : Type} (l : list A) :
  forallb (fun _ => true) l = true.
Proof. induction l; [reflexivity | assumption]. Qed.

Lemma tick_withinBounds (allPipesLength : Z) (s : State) :
  withinBounds s -> withinBounds (tick allPipesLength s).
Proof.
  intros (Hseed & Hlives & Halive & Hscore).
  destruct (gameEnd s || paused s) eqn:Hstop.
  - rewrite (tick_stopped _ _ Hstop). repeat split; tauto.
  - apply orb_false_iff in Hstop as [Hend Hpaused].
    specialize (Halive Hend).
    assert (Hnew : (0 <= Step.newScore s)%Z).
    { unfold Step.newScore, Step.newlyPassed. lia. }
    rewrite (tick_running _ _ Hend Hpaused).
    destruct (Step.collision s); unfold withinBounds;
      cbn [rngSeed lives gameEnd score].
    + split; [apply hash_range; lia|].
      split; [lia|]. split; [|exact Hnew].
      intros H. apply orb_false_iff in H as [H _].
      apply Z.leb_gt in H. lia.
    + repeat split; try lia; tauto.
Qed.

Lemma reducer_withinBounds (allPipesLength : Z) (e : Event) (s : State) :
  withinBounds s -> withinBounds (reducer allPipesLength e s).
Proof.
  intros H. destruct e; cbn [reducer].
  - apply tick_withinBounds. exact H.
  - exact H.
  - unfold restart. destruct (gameEnd s); [|exact H].
    unfold withinBounds. cbn. repeat split; lia || discriminate.
  - exact H.
  - exact H.
Qed.

Lemma scan_withinBounds (allPipesLength : Z) (events : list Event) :
  withinBounds (scan allPipesLength events initialState).
Proof.
  apply (scan_invariant withinBounds (fun _ => true) allPipesLength).
  - intros e s _. apply reducer_withinBounds.
  - apply forallb_always_true.
  - unfold withinBounds. cbn. repeat split; lia || discriminate.
Qed.

(** X7.  Bounds of a session: after any sequence of events from the initial
    state the seed is an integer in [[0, 2^31)], the lives are between 0
    and 3, a state that is not ended has at least one life, and the score
    is not negative. *)
Theorem session_bounds (allPipesLength : Z) (events : list Event) :
  let s := scan allPipesLength events initialState in
  (0 <= rngSeed s < 2 ^ 31)%Z
  /\ (0 <= lives s <= 3)%Z
  /\ (gameEnd s = false -> 1 <= lives s)%Z
  /\ (0 <= score s)%Z.
Proof.
  cbv zeta. exact (scan_withinBounds allPipesLength events).
Qed.

Lemma session_bounds_witness :
  (1 <= lives (scan 2 [PipeSpawn highGapPipe; Tick; Flap; Tick]
                    initialState))%Z.
Proof.
  apply (session_bounds 2 [PipeSpawn highGapPipe; Tick; Flap; Tick]).
  reflexivity.
Defined.

Lemma bounce_magnitude (seed : Z) (isUpward : bool) :
  (0 <= seed)%Z ->
  3 <= Qabs (fst (generateBounceVelocity seed isUpward)) <= 6.
Proof.
  intros Hseed. unfold generateBounceVelocity. cbn [fst].
  pose proof (scale_range _ (hash_range seed Hseed)) as Hscale.
  pose proof (Qabs_bound _ Hscale) as [Hb0 Hb1].
  set (r := Qabs (RNG.scale (RNG.hash seed))) in *.
  assert (Habs : Qabs (if isUpward then - (3 + r * 3) else 3 + r * 3)
                 == 3 + r * 3).
  { destruct isUpward.
    - rewrite Qabs_opp. apply Qabs_pos. lra.
    - apply Qabs_pos. lra. }
  rewrite Habs. split; lra.
Qed.

(** X8.  Bounce speed in play: at every collision of a session started from
    the initial state, the velocity the tick stores has a magnitude
    between 3 and 6, and the seed it stores is again in [[0, 2^31)]. *)
Theorem session_bounce_speed
    (allPipesLength : Z) (events : list Event) :
  let s := scan allPipesLength events initialState in
  gameEnd s = false -> paused s = false ->
  Step.collision s = true ->
  3 <= Qabs (birdVelocity (tick allPipesLength s)) <= 6
  /\ (0 <= rngSeed (tick allPipesLength s) < 2 ^ 31)%Z.
Proof.
  cbv zeta. intros Hend Hpaused Hc.
  destruct (scan_withinBounds allPipesLength events) as (Hseed & _).
  rewrite (tick_running _ _ Hend Hpaused), Hc. cbn [birdVelocity rngSeed].
  split; [apply bounce_magnitude; lia | apply hash_range; lia].
Qed.

Lemma session_bounce_speed_witness :
  3 <= Qabs (birdVelocity
               (tick 2 (scan 2 [PipeSpawn highGapPipe] initialState))) <= 6.
Proof.
  apply (session_bounce_speed 2 [PipeSpawn highGapPipe]); reflexivity.
Defined.

(** ** Passed pipes are behind the bird *)

Lemma tick_passedBehind (allPipesLength : Z) (s : State) :
  passedBehind s -> passedBehind (tick allPipesLength s).
Proof.
  intros Hs. destruct (gameEnd s || paused s) eqn:Hstop.
  - rewrite (tick_stopped _ _ Hstop). exact Hs.
  - apply orb_false_iff in Hstop as [Hend Hpaused].
    unfold passedBehind.
    rewrite (proj2 (tick_score allPipesLength s Hend Hpaused)).
    intros pipe Hin Hpassed.
    apply in_map_iff in Hin as (moved & Heq & Hin).
    destruct (in_movedPipes s moved Hin) as (incoming & Hi & Hm & _).
    unfold credit in Heq. destruct (justPassed moved) eqn:Hj.
    + subst pipe. cbn [markPassed x]. unfold justPassed in Hj.
      apply andb_true_iff in Hj as [_ Hj]. order_facts. exact Hj.
    + subst pipe moved. cbn [movePipe passed x] in *.
      specialize (Hs incoming Hi Hpassed).
      unfold Constants.PIPE_SPEED. lra.
Qed.

Lemma reducer_passedBehind (allPipesLength : Z) (e : Event) (s : State) :
  spawnsUnpassed e = true ->
  passedBehind s -> passedBehind (reducer allPipesLength e s).
Proof.
  intros He Hs. destruct e; cbn [reducer].
  - apply tick_passedBehind. exact Hs.
  - exact Hs.
  - unfold restart. destruct (gameEnd s); [|exact Hs].
    intros pipe [].
  - intros q Hin Hpassed. cbn [pipeSpawn pipes] in Hin.
    apply in_app_iff in Hin as [Hin | [Heq | []]].
    + apply Hs; assumption.
    + subst q. cbn [spawnsUnpassed] in He. rewrite Hpassed in He.
      discriminate He.
  - exact Hs.
Qed.

Lemma behind_is_not_hit (birdY : Q) (pipe : Pipe) :
  x pipe + Constants.PIPE_WIDTH < Constants.BIRD_X ->
  checkBirdHitsPipe birdY pipe = false.
Proof.
  intros H. unfold checkBirdHitsPipe. cbv zeta.
  assert (E : Qltb Constants.BIRD_X (x pipe + Constants.PIPE_WIDTH) = false)
    by (order_facts; lra).
  rewrite E, andb_false_r. reflexivity.
Qed.

(** X9.  A pipe that has given its point cannot take a life: in a session
    started from the initial state whose spawned pipes come unmarked (as
    the loader builds them), every pipe marked passed lies left of the
    bird, no position of the bird hits it, and the pipe a tick finds hit
    is never a passed one. *)
Theorem passed_pipes_are_never_hit
    (allPipesLength : Z) (events : list Event) :
  forallb spawnsUnpassed events = true ->
  let s := scan allPipesLength events initialState in
  (forall pipe, In pipe (pipes s) -> passed pipe = true ->
     x pipe + Constants.PIPE_WIDTH < Constants.BIRD_X
     /\ forall birdY, checkBirdHitsPipe birdY pipe = false)
  /\ (forall pipe, Step.hitPipe s = Some pipe -> passed pipe = false).
Proof.
  intros Hok. cbv zeta.
  assert (Hinv : passedBehind (scan allPipesLength events initialState)).
  { apply (scan_invariant passedBehind spawnsUnpassed allPipesLength).
    - intros e s. apply reducer_passedBehind.
    - exact Hok.
    - intros pipe []. }
  split.
  - intros pipe Hin Hpassed. specialize (Hinv pipe Hin Hpassed).
    split; [exact Hinv | intros birdY; apply behind_is_not_hit; exact Hinv].
  - intros pipe Hfind. unfold Step.hitPipe in Hfind.
    apply find_some in Hfind as [Hin Hhit].
    destruct (passed pipe) eqn:Hpassed; [|reflexivity].
    rewrite (behind_is_not_hit _ pipe (Hinv pipe Hin Hpassed)) in Hhit.
    discriminate Hhit.
Qed.

Lemma passed_pipes_are_never_hit_witness :
  x (markPassed (movePipe passingPipe)) + Constants.PIPE_WIDTH
  < Constants.BIRD_X
  /\ checkBirdHitsPipe 185 (markPassed (movePipe passingPipe)) = false.
Proof.
  destruct (passed_pipes_are_never_hit
              2 [PipeSpawn passingPipe; Tick] eq_refl) as [Hbehind _].
  destruct (Hbehind (markPassed (movePipe passingPipe)))
    as [Hx Hhit]; [left; reflexivity | reflexivity |].
  split; [exact Hx | apply Hhit].
Defined.

(** ** Score against spawned pipes *)

Lemma unpassed_after_credit (l : list Pipe) :
  (unpassedCount (map credit l)
   + Z.of_nat (List.length (filter justPassed l))
   = unpassedCount l)%Z.
Proof.
  unfold unpassedCount. induction l as [|pipe l IH]; [reflexivity|].
  cbn [map filter]. unfold credit at 1. destruct (justPassed pipe) eqn:Hj.
  - assert (Hp : passed pipe = false).
    { unfold justPassed in Hj. apply andb_true_iff in Hj as [H _].
      apply negb_true_iff in H. exact H. }
    rewrite Hp. cbn [markPassed passed negb List.length].
    rewrite !Nat2Z.inj_succ. lia.
  - destruct (negb (passed pipe)); cbn [List.length];
      rewrite ?Nat2Z.inj_succ; lia.
Qed.

Lemma unpassed_after_move (s : State) :
  (unpassedCount (Step.movedPipes s) <= unpassedCount (pipes s))%Z.
Proof.
  unfold unpassedCount, Step.movedPipes.
  induction (pipes s) as [|pipe l IH]; [reflexivity|].
  cbn [map filter].
  destruct (Qltb (- Constants.PIPE_WIDTH) (x (movePipe pipe)));
    cbn [filter movePipe passed];
    destruct (passed pipe); cbn [negb List.length];
    rewrite ?Nat2Z.inj_succ; lia.
Qed.

Lemma unpassedCount_nonneg (l : list Pipe) : (0 <= unpassedCount l)%Z.
Proof. unfold unpassedCount. lia. Qed.

Lemma unpassedCount_app (l l' : list Pipe) :
  unpassedCount (l ++ l') = (unpassedCount l + unpassedCount l')%Z.
Proof.
  unfold unpassedCount. rewrite filter_app, length_app, Nat2Z.inj_add.
  reflexivity.
Qed.

(** The score and the pipes still to be passed never exceed what was
    there before plus the pipes spawned since. *)
Lemma score_budget (allPipesLength : Z) (events : list Event) :
  forall s : State,
    (0 <= score s)%Z ->
    (0 <= score (scan allPipesLength events s))%Z
    /\ (score (scan allPipesLength events s)
        + unpassedCount (pipes (scan allPipesLength events s))
        <= score s + unpassedCount (pipes s)
           + Z.of_nat (List.length (filter isSpawn events)))%Z.
Proof.
  induction events as [|e events IH]; intros s Hs.
  - cbn. split; lia.
  - rewrite scan_cons.
    assert (Hstep :
      (0 <= score (reducer allPipesLength e s))%Z
      /\ (score (reducer allPipesLength e s)
          + unpassedCount (pipes (reducer allPipesLength e s))
          <= score s + unpassedCount (pipes s)
             + (if isSpawn e then 1 else 0))%Z).
    { pose proof (unpassedCount_nonneg (pipes s)) as Hu.
      destruct e; cbn [reducer isSpawn].
      - destruct (gameEnd s || paused s) eqn:Hstop.
        + rewrite (tick_stopped _ _ Hstop). lia.
        + apply orb_false_iff in Hstop as [Hend Hpaused].
          destruct (tick_score allPipesLength s Hend Hpaused) as [Hsc Hp].
          rewrite Hsc, Hp. unfold Step.newScore, Step.newlyPassed.
          pose proof (unpassed_after_credit (Step.movedPipes s)).
          pose proof (unpassed_after_move s). lia.
      - cbn [flap score pipes]. lia.
      - unfold restart. destruct (gameEnd s); [cbn|]; lia.
      - cbn [pipeSpawn score pipes]. rewrite unpassedCount_app.
        unfold unpassedCount at 2. cbn [filter].
        destruct (negb (passed pipe)); cbn [List.length]; lia.
      - cbn [pause score pipes]. lia. }
    destruct Hstep as [H0 Hle].
    destruct (IH _ H0) as [H0' Hle']. split; [exact H0'|].
    cbn [filter]. destruct (isSpawn e); cbn [List.length];
      rewrite ?Nat2Z.inj_succ; lia.
Qed.

(** X10.  One point per spawned pipe at most: in a session started from the
    initial state the score, together with the number of pipes in the
    state not yet passed, never exceeds the number of pipes spawned. *)
Theorem score_at_most_spawned (allPipesLength : Z) (events : list Event) :
  let s := scan allPipesLength events initialState in
  (0 <= score s)%Z
  /\ (score s + unpassedCount (pipes s)
      <= Z.of_nat (List.length (filter isSpawn events)))%Z
  /\ (score s <= Z.of_nat (List.length (filter isSpawn events)))%Z.
Proof.
  cbv zeta.
  destruct (score_budget allPipesLength events initialState) as [H0 Hle];
    [cbn; lia|].
  pose proof (unpassedCount_nonneg
                (pipes (scan allPipesLength events initialState))).
  cbn [initialState score pipes] in Hle. unfold unpassedCount at 2 in Hle.
  cbn in Hle. repeat split; lia.
Qed.

(** ** Why and how a session ends *)

Lemma reducer_endedForAReason (allPipesLength : Z) (e : Event) (s : State) :
  endedForAReason allPipesLength s ->
  endedForAReason allPipesLength (reducer allPipesLength e s).
Proof.
  intros Hs. destruct e; cbn [reducer]; try exact Hs.
  - destruct (gameEnd s || paused s) eqn:Hstop.
    + rewrite (tick_stopped _ _ Hstop). exact Hs.
    + apply orb_false_iff in Hstop as [Hend Hpaused].
      unfold endedForAReason.
      rewrite (tick_running _ _ Hend Hpaused).
      destruct (Step.collision s); cbn [gameEnd lives score]; intros H.
      * apply orb_true_iff in H as [H | H].
        -- left. apply Z.leb_le. exact H.
        -- right. unfold Step.allPipesPassed in H.
           apply andb_true_iff in H as [H1 H2].
           apply Z.ltb_lt in H1. apply Z.leb_le in H2. split; assumption.
      * right. unfold Step.allPipesPassed in H.
        apply andb_true_iff in H as [H1 H2].
        apply Z.ltb_lt in H1. apply Z.leb_le in H2. split; assumption.
  - unfold restart. destruct (gameEnd s) eqn:Hend; [|exact Hs].
    intros H. discriminate H.
Qed.

(** X11.  Why a session is over: in a session started from the initial state,
    a state with [gameEnd = true] has no life left, or the table length is
    positive and the score has reached it; in the latter case at least
    that many pipes have been spawned.  With an empty level table a
    session ends by loss of lives only. *)
Theorem session_ends_for_a_reason
    (allPipesLength : Z) (events : list Event) :
  let s := scan allPipesLength events initialState in
  gameEnd s = true ->
  ((lives s <= 0)%Z
   \/ (0 < allPipesLength <= score s
       /\ allPipesLength
          <= Z.of_nat (List.length (filter isSpawn events)))%Z)
  /\ ((allPipesLength <= 0)%Z -> (lives s <= 0)%Z).
Proof.
  cbv zeta. intros Hend.
  assert (Hinv : endedForAReason allPipesLength
                   (scan allPipesLength events initialState)).
  { apply (scan_invariant (endedForAReason allPipesLength)
                          (fun _ => true) allPipesLength).
    - intros e s _. apply reducer_endedForAReason.
    - apply forallb_always_true.
    - intros H. discriminate H. }
  destruct (score_budget allPipesLength events initialState) as [_ Hle];
    [cbn; lia|].
  pose proof (unpassedCount_nonneg
                (pipes (scan allPipesLength events initialState))).
  cbn [initialState score pipes] in Hle. unfold unpassedCount at 2 in Hle.
  cbn in Hle.
  destruct (Hinv Hend) as [Hl | [Hn Hs]].
  - split; [left; exact Hl | intros _; exact Hl].
  - split; [right; lia | lia].
Qed.

Lemma session_ends_for_a_reason_witness :
  (lives (scan 1 [PipeSpawn passingPipe; Tick] initialState) <= 0)%Z
  \/ (0 < 1 <= score (scan 1 [PipeSpawn passingPipe; Tick] initialState)
      /\ 1 <= Z.of_nat
                (List.length
                   (filter isSpawn [PipeSpawn passingPipe; Tick])))%Z.
Proof.
  apply (session_ends_for_a_reason 1 [PipeSpawn passingPipe; Tick]).
  reflexivity.
Defined.

Lemma reducer_on_ended (allPipesLength : Z) (e : Event) (s : State) :
  isRestart e = false -> gameEnd s = true ->
  let s' := reducer allPipesLength e s in
  gameEnd s' = true
  /\ birdY s' = birdY s /\ gameTime s' = gameTime s
  /\ score s' = score s /\ lives s' = lives s
  /\ rngSeed s' = rngSeed s
  /\ invulnerableUntil s' = invulnerableUntil s
  /\ currentPath s' = currentPath s /\ ghostPath s' = ghostPath s.
Proof.
  intros He Hend. destruct e; cbn [reducer isRestart] in *;
    try discriminate He; cbv zeta.
  - rewrite tick_stopped by (rewrite Hend; reflexivity).
    repeat split; exact Hend.
  - cbn. repeat split; exact Hend.
  - cbn. repeat split; exact Hend.
  - cbn. repeat split; exact Hend.
Qed.

(** X12.  An ended session is frozen until restart: from a state with
    [gameEnd = true], events other than restart leave [gameEnd], the
    position, the time, the score, the lives, the seed, the window and both
    paths as they are (a flap still sets the velocity, a pause still
    toggles, a spawn still adds its pipe). *)
Theorem ended_state_is_frozen
    (allPipesLength : Z) (events : list Event) (s : State) :
  gameEnd s = true -> noRestart events = true ->
  let s' := scan allPipesLength events s in
  gameEnd s' = true
  /\ birdY s' = birdY s /\ gameTime s' = gameTime s
  /\ score s' = score s /\ lives s' = lives s
  /\ rngSeed s' = rngSeed s
  /\ invulnerableUntil s' = invulnerableUntil s
  /\ currentPath s' = currentPath s /\ ghostPath s' = ghostPath s.
Proof.
  revert s. induction events as [|e events IH]; intros s Hend Hno.
  - cbn. repeat split; exact Hend.
  - cbv zeta. rewrite scan_cons.
    assert (He : isRestart e = false /\ noRestart events = true).
    { destruct e; cbn [noRestart] in Hno; try discriminate Hno;
        split; reflexivity || exact Hno. }
    destruct He as [He Hno'].
    destruct (reducer_on_ended allPipesLength e s He Hend)
      as (H1 & H2 & H3 & H4 & H5 & H6 & H7 & H8 & H9).
    destruct (IH _ H1 Hno') as (K1 & K2 & K3 & K4 & K5 & K6 & K7 & K8 & K9).
    repeat split; congruence.
Qed.

Lemma ended_state_is_frozen_witness :
  score (scan 2 [Flap; Tick; Pause; PipeSpawn passingPipe; Tick]
              (endedState [185])) = 0%Z.
Proof.
  apply (ended_state_is_frozen
           2 [Flap; Tick; Pause; PipeSpawn passingPipe; Tick]
           (endedState [185])); reflexivity.
Defined.

(** ** Pause and restart *)

Lemma pause_pause (s : State) : pause (pause s) = s.
Proof. destruct s. unfold pause. cbn. rewrite negb_involutive. reflexivity. Qed.

Lemma ticks_when_stopped (allPipesLength : Z) (k : nat) (s : State) :
  gameEnd s || paused s = true ->
  scan allPipesLength (ticks k) s = s.
Proof.
  intros Hstop. induction k as [|k IH]; [reflexivity|].
  unfold ticks. cbn [repeat]. rewrite scan_cons. cbn [reducer].
  rewrite (tick_stopped _ _ Hstop). exact IH.
Qed.

(** X13.  Pausing loses nothing: pressing pause, letting any number of ticks
    go by and pressing pause again gives back exactly the state before,
    and pressing pause twice is the identity on every state. *)
Theorem pause_ticks_pause_is_identity
    (allPipesLength : Z) (k : nat) (s : State) :
  pause (pause s) = s
  /\ (paused s = false ->
      scan allPipesLength (Pause :: ticks k ++ [Pause]) s = s).
Proof.
  split; [apply pause_pause|]. intros Hpaused.
  rewrite scan_cons, scan_app. cbn [reducer].
  rewrite ticks_when_stopped.
  - cbn. apply pause_pause.
  - cbn [pause paused gameEnd]. rewrite Hpaused. apply orb_true_r.
Qed.

Lemma pause_ticks_pause_is_identity_witness :
  scan 2 (Pause :: ticks 40 ++ [Pause]) belowGapState = belowGapState.
Proof.
  apply (pause_ticks_pause_is_identity 2 40 belowGapState). reflexivity.
Defined.

(** X14.  Restart is idempotent: a second restart right after the first changes
    nothing.  Restarting an ended state gives a state that is neither
    ended nor paused, with three lives, no pipes, score 0 and an empty
    current path, also when the ended state was paused. *)
Theorem restart_twice (s : State) :
  restart (restart s) = restart s
  /\ (gameEnd s = true ->
      gameEnd (restart s) = false /\ paused (restart s) = false
      /\ lives (restart s) = 3%Z /\ pipes (restart s) = []
      /\ score (restart s) = 0%Z /\ currentPath (restart s) = []).
Proof.
  destruct (gameEnd s) eqn:Hend.
  - unfold restart. rewrite Hend. cbn.
    split; [reflexivity | intros _; repeat split].
  - split; [|discriminate]. unfold restart. rewrite !Hend. reflexivity.
Qed.

Lemma restart_twice_witness :
  lives (restart (endedState [185])) = 3%Z.
Proof.
  apply (restart_twice (endedState [185])). reflexivity.
Defined.

(** ** Recorded paths *)

Lemma reducer_paths (allPipesLength : Z) (e : Event) (s : State) :
  isRestart e = false ->
  let s' := reducer allPipesLength e s in
  ghostPath s' = ghostPath s
  /\ gameTime s <= gameTime s'
  /\ exists added,
       currentPath s' = currentPath s ++ added
       /\ (List.length added <= (if isTick e then 1 else 0))%nat.
Proof.
  intros He. cbv zeta. destruct e; cbn [reducer isRestart isTick] in *;
    try discriminate He.
  - destruct (gameEnd s || paused s) eqn:Hstop.
    + rewrite (tick_stopped _ _ Hstop).
      split; [reflexivity|]. split; [lra|].
      exists []. rewrite app_nil_r. split; [reflexivity | cbn; lia].
    + apply orb_false_iff in Hstop as [Hend Hpaused].
      rewrite (tick_running _ _ Hend Hpaused).
      destruct (Step.collision s); cbn [ghostPath gameTime currentPath];
        (split; [reflexivity|]); (split; [tick_length; lra|]);
        eexists; (split; [reflexivity | cbn; lia]).
  - split; [reflexivity|]. split; [cbn; lra|].
    exists []. cbn. rewrite app_nil_r. split; [reflexivity | lia].
  - split; [reflexivity|]. split; [cbn; lra|].
    exists []. cbn. rewrite app_nil_r. split; [reflexivity | lia].
  - split; [reflexivity|]. split; [cbn; lra|].
    exists []. cbn. rewrite app_nil_r. split; [reflexivity | lia].
Qed.

(** X15.  The recording is append-only within a run: over events without
    restart the ghost path is untouched, the game time never goes back, and
    the current path only grows at its end, by at most one position per
    tick. *)
Theorem paths_within_a_run
    (allPipesLength : Z) (events : list Event) (s : State) :
  noRestart events = true ->
  let s' := scan allPipesLength events s in
  ghostPath s' = ghostPath s
  /\ gameTime s <= gameTime s'
  /\ exists added,
       currentPath s' = currentPath s ++ added
       /\ (List.length added <= tickCount events)%nat.
Proof.
  revert s. induction events as [|e events IH]; intros s Hno; cbv zeta.
  - split; [reflexivity|]. split; [cbn; lra|].
    exists []. cbn. rewrite app_nil_r. split; [reflexivity | lia].
  - rewrite scan_cons.
    assert (He : isRestart e = false /\ noRestart events = true).
    { destruct e; cbn [noRestart] in Hno; try discriminate Hno;
        split; reflexivity || exact Hno. }
    destruct He as [He Hno'].
    destruct (reducer_paths allPipesLength e s He)
      as (Hg & Ht & added & Hp & Hn).
    destruct (IH (reducer allPipesLength e s) Hno')
      as (Hg' & Ht' & added' & Hp' & Hn').
    split; [congruence|]. split; [lra|].
    exists (added ++ added'). split.
    + rewrite Hp', Hp, app_assoc. reflexivity.
    + rewrite length_app. unfold tickCount in *. cbn [filter].
      destruct (isTick e); cbn [List.length]; lia.
Qed.

Lemma paths_within_a_run_witness :
  ghostPath (scan 2 [Tick; Flap; Tick] (restart (endedState [185; 190])))
  = [185; 190].
Proof.
  apply (paths_within_a_run
           2 [Tick; Flap; Tick] (restart (endedState [185; 190]))).
  reflexivity.
Defined.

(** ** Pipes on screen *)

Lemma NoDup_ids_filter (f : Pipe -> bool) (l : list Pipe) :
  NoDup (map id l) -> NoDup (map id (filter f l)).
Proof.
  induction l as [|pipe l IH]; intros H; [constructor|].
  cbn [map] in H. inversion H as [|? ? Hnotin Hrest]; subst.
  cbn [filter]. destruct (f pipe); [|apply IH; exact Hrest].
  cbn [map]. constructor; [|apply IH; exact Hrest].
  intros Hin. apply Hnotin. apply in_map_iff in Hin as (q & Hq & Hin).
  apply filter_In in Hin as [Hin _]. apply in_map_iff. exists q.
  split; assumption.
Qed.

Lemma map_id_credit_move (l : list Pipe) :
  map id (map (fun pipe => credit (movePipe pipe)) l) = map id l.
Proof.
  rewrite map_map. apply map_ext. intros pipe. unfold credit.
  destruct (justPassed (movePipe pipe)); reflexivity.
Qed.

(** X16.  What a running tick does to the pipes: it keeps, in their order, the
    pipes whose position after the move is right of [-PIPE_WIDTH], each
    moved left by [PIPE_SPEED] and marked if just passed; it adds none.
    So every pipe of the new state is on screen, the identities are the
    kept ones in the same order, and identities that were distinct stay
    distinct. *)
Theorem tick_pipes_lifecycle (allPipesLength : Z) (s : State) :
  gameEnd s = false -> paused s = false ->
  let kept :=
    filter (fun pipe =>
              Qltb (- Constants.PIPE_WIDTH) (x pipe - Constants.PIPE_SPEED))
           (pipes s) in
  pipes (tick allPipesLength s)
  = map (fun pipe => credit (movePipe pipe)) kept
  /\ map id (pipes (tick allPipesLength s)) = map id kept
  /\ (forall pipe, In pipe (pipes (tick allPipesLength s)) ->
        - Constants.PIPE_WIDTH < x pipe)
  /\ (List.length (pipes (tick allPipesLength s))
      <= List.length (pipes s))%nat
  /\ (NoDup (map id (pipes s)) ->
      NoDup (map id (pipes (tick allPipesLength s)))).
Proof.
  intros Hend Hpaused. cbv zeta.
  assert (Heq : pipes (tick allPipesLength s)
                = map (fun pipe => credit (movePipe pipe))
                    (filter (fun pipe =>
                               Qltb (- Constants.PIPE_WIDTH)
                                    (x pipe - Constants.PIPE_SPEED))
                            (pipes s))).
  { rewrite (proj2 (tick_score allPipesLength s Hend Hpaused)).
    unfold Step.movedPipes. rewrite filter_map_swap, map_map. reflexivity. }
  rewrite Heq. split; [reflexivity|].
  split; [apply map_id_credit_move|].
  split; [|split].
  - intros pipe Hin. apply in_map_iff in Hin as (q & Hq & Hin).
    apply filter_In in Hin as [_ Hx]. subst pipe. order_facts.
    unfold credit. destruct (justPassed (movePipe q)); exact Hx.
  - rewrite length_map. apply filter_length_le.
  - intros Hnodup. rewrite map_id_credit_move.
    apply NoDup_ids_filter. exact Hnodup.
Qed.

Lemma tick_pipes_lifecycle_witness :
  map id (pipes (tick 2 belowGapState)) = [1%Z; 0%Z].
Proof.
  destruct (tick_pipes_lifecycle 2 belowGapState) as (_ & Hids & _);
    [reflexivity | reflexivity |].
  rewrite Hids. reflexivity.
Defined.

(** ** Spawning by time window *)

Lemma updatePipes_facts
    (currentPipes allPipes : list Pipe) (gameTime : Q) :
  (forall pipe, In pipe (updatePipes currentPipes allPipes gameTime) ->
     (exists current, In current currentPipes
        /\ pipe = movePipe current
        /\ - Constants.PIPE_WIDTH < x pipe)
     \/ (In pipe allPipes
         /\ Qabs (time pipe - gameTime) < Constants.TICK_RATE_MS / 1000
         /\ ~ In (id pipe) (map id currentPipes)))
  /\ (NoDup (map id currentPipes) -> NoDup (map id allPipes) ->
      NoDup (map id (updatePipes currentPipes allPipes gameTime))).
Proof.
  unfold updatePipes. cbv zeta.
  assert (Hnew : forall pipe,
    In pipe (filter (fun pipe =>
                       Qltb (Qabs (time pipe - gameTime))
                            (Constants.TICK_RATE_MS / 1000)
                       && negb (existsb (fun p => (id p =? id pipe)%Z)
                                        currentPipes)) allPipes) ->
    In pipe allPipes
    /\ Qabs (time pipe - gameTime) < Constants.TICK_RATE_MS / 1000
    /\ ~ In (id pipe) (map id currentPipes)).
  { intros pipe Hin. apply filter_In in Hin as [Hin Hc].
    apply andb_true_iff in Hc as [Ht Hid]. order_facts.
    split; [exact Hin|]. split; [exact Ht|].
    intros Hmem. apply in_map_iff in Hmem as (p & Hp & Hpin).
    apply negb_true_iff in Hid.
    assert (Hex : existsb (fun p => (id p =? id pipe)%Z) currentPipes = true).
    { apply existsb_exists. exists p. split; [exact Hpin|].
      apply Z.eqb_eq. exact Hp. }
    congruence. }
  split.
  - intros pipe Hin. apply in_app_iff in Hin as [Hin | Hin].
    + left. apply filter_In in Hin as [Hin Hx].
      apply in_map_iff in Hin as (current & Heq & Hin).
      exists current. order_facts. split; [exact Hin|].
      split; [symmetry; exact Heq | exact Hx].
    + right. apply Hnew. exact Hin.
  - intros Hcur Hall. rewrite map_app. apply NoDup_app.
    + rewrite filter_map_swap, map_map. cbn [movePipe id].
      apply (NoDup_ids_filter _ currentPipes Hcur).
    + apply NoDup_ids_filter. exact Hall.
    + intros i Hin Hin'.
      apply in_map_iff in Hin as (moved & Hi & Hin).
      apply filter_In in Hin as [Hin _].
      apply in_map_iff in Hin as (current & Hm & Hin).
      apply in_map_iff in Hin' as (fresh & Hi' & Hin').
      destruct (Hnew fresh Hin') as (_ & _ & Hnot).
      apply Hnot. apply in_map_iff. exists current.
      split; [|exact Hin]. subst moved. cbn [movePipe id] in Hi. congruence.
Qed.

(** X17.  [updatePipes] never duplicates a pipe: when the current pipes have
    distinct identities and so has the level table, the result has
    distinct identities.  Every pipe of the result is a current pipe moved
    left by [PIPE_SPEED] and still on screen, or a pipe of the table whose
    spawn time is less than one tick away from [gameTime] and whose
    identity no current pipe has. *)
Theorem updatePipes_never_duplicates
    (currentPipes allPipes : list Pipe) (gameTime : Q) :
  (forall pipe, In pipe (updatePipes currentPipes allPipes gameTime) ->
     (exists current, In current currentPipes
        /\ pipe = movePipe current
        /\ - Constants.PIPE_WIDTH < x pipe)
     \/ (In pipe allPipes
         /\ Qabs (time pipe - gameTime) < Constants.TICK_RATE_MS / 1000
         /\ ~ In (id pipe) (map id currentPipes)))
  /\ (NoDup (map id currentPipes) -> NoDup (map id allPipes) ->
      NoDup (map id (updatePipes currentPipes allPipes gameTime))).
Proof. exact (updatePipes_facts currentPipes allPipes gameTime). Qed.

Lemma updatePipes_never_duplicates_witness :
  NoDup (map id (updatePipes [highGapPipe] [levelPipe 0; levelPipe 1] 2)).
Proof.
  apply (updatePipes_never_duplicates
           [highGapPipe] [levelPipe 0; levelPipe 1] 2).
  - cbn. constructor; [intros [] | constructor].
  - cbn. constructor; [intros [H | []]; discriminate H|].
    constructor; [intros [] | constructor].
Defined.

(** ** Size of a loaded level *)

Lemma split_length (sep : ascii) (s : text) :
  List.length (split sep s) = S (occurrences sep s).
Proof.
  unfold occurrences. induction s as [|c s IH]; [reflexivity|].
  cbn [split filter]. rewrite (Ascii.eqb_sym sep c).
  destruct (Ascii.eqb c sep).
  - cbn [List.length]. rewrite IH. reflexivity.
  - destruct (split sep s) as [|h t]; [discriminate IH|].
    cbn [List.length] in *. exact IH.
Qed.

(** X18.  The loader returns one pipe per line feed of the trimmed text, with
    the identities 0, 1, 2, ... in order.  In particular a text that is
    blank, or that holds a header line only, loads as the empty level. *)
Theorem parseCSV_size (csvContent : text) :
  List.length (parseCSV csvContent)
  = occurrences lineFeed (trim csvContent)
  /\ map l_id (parseCSV csvContent)
     = map Z.of_nat (seq 0 (occurrences lineFeed (trim csvContent)))
  /\ (occurrences lineFeed (trim csvContent) = 0%nat ->
      parseCSV csvContent = []).
Proof.
  assert (Hlen : List.length (dataLines csvContent)
                 = occurrences lineFeed (trim csvContent)).
  { unfold dataLines.
    pose proof (split_length lineFeed (trim csvContent)) as H.
    fold lineFeed.
    destruct (split lineFeed (trim csvContent)) as [|h t];
      [discriminate H|].
    cbn [tl List.length] in *. lia. }
  assert (Hids : forall (l : list text) (index : nat),
            map l_id (mapi pipeOfLine index l)
            = map Z.of_nat (seq index (List.length l))).
  { induction l as [|line l IH]; intros index; [reflexivity|].
    cbn [mapi map List.length seq]. rewrite IH. reflexivity. }
  unfold parseCSV. rewrite mapi_length, Hids, Hlen.
  split; [reflexivity|]. split; [reflexivity|].
  intros Hzero. rewrite Hzero in Hlen.
  destruct (dataLines csvContent); [reflexivity | discriminate Hlen].
Qed.

Lemma parseCSV_size_witness :
  parseCSV (list_ascii_of_string "gapY,gapHeight,time") = [].
Proof.
  apply (parseCSV_size (list_ascii_of_string "gapY,gapHeight,time")).
  reflexivity.
Defined.

(** ** The earlier end-by-completion test *)

(** The earlier test could only succeed with the whole table on screen:
    it holds only if the table is not empty and the state has at least as
    many pipes as the table, as many of them marked as the table has
    pipes.  Once a pipe retired from the screen it could not succeed for a
    table that spawns more pipes than the state then holds. *)
Theorem earlier_completion_needs_all_pipes_visible
    (allPipes pipesWithScore : list Pipe) :
  Earlier.allPipesPassed allPipes pipesWithScore = true ->
  allPipes <> []
  /\ (List.length allPipes <= List.length pipesWithScore)%nat
  /\ List.length (filter passed pipesWithScore) = List.length allPipes.
Proof.
  unfold Earlier.allPipesPassed. intros H.
  apply andb_true_iff in H as [Hpos Heq].
  apply Nat.ltb_lt in Hpos. apply Nat.eqb_eq in Heq.
  split; [intros Hnil; rewrite Hnil in Hpos; cbn in Hpos; lia|].
  split; [|exact Heq].
  rewrite <- Heq. apply filter_length_le.
Qed.

Lemma earlier_completion_needs_all_pipes_visible_witness :
  (2 <= List.length [markPassed (levelPipe 0); markPassed (levelPipe 1)])%nat.
Proof.
  apply (earlier_completion_needs_all_pipes_visible
           [levelPipe 0; levelPipe 1]
           [markPassed (levelPipe 0); markPassed (levelPipe 1)]).
  reflexivity.
Defined.

(** ** Completion in the earlier iteration *)

Lemma map_id_credit (l : list Pipe) : map id (map credit l) = map id l.
Proof.
  rewrite map_map. apply map_ext. intros pipe. unfold credit.
  destruct (justPassed pipe); reflexivity.
Qed.

Lemma earlier_tick_shape (allPipes : list Pipe) (s : EarlierTick.State) :
  EarlierTick.gameEnd s = false ->
  let s' := EarlierTick.tick allPipes s in
  EarlierTick.pipes s' = EarlierTick.pipesAfterTick allPipes s
  /\ (Earlier.allPipesPassed allPipes (EarlierTick.pipes s') = true ->
      EarlierTick.gameEnd s' = true)
  /\ (EarlierTick.gameEnd s' = true ->
      (EarlierTick.lives s' <= 0)%Z
      \/ Earlier.allPipesPassed allPipes (EarlierTick.pipes s') = true).
Proof.
  intros Hend. cbv zeta. unfold EarlierTick.tick. rewrite Hend. cbv zeta.
  match goal with
  | |- context [if ?c then _ else _] => destruct c
  end; cbn [EarlierTick.pipes EarlierTick.gameEnd EarlierTick.lives fst snd].
  - unfold generateBounceVelocity.
    cbn [EarlierTick.pipes EarlierTick.gameEnd EarlierTick.lives].
    split; [reflexivity|]. split.
    + intros H. fold (EarlierTick.pipesAfterTick allPipes s) in H.
      unfold EarlierTick.pipesAfterTick in H. rewrite H. apply orb_true_r.
    + intros H. apply orb_true_iff in H as [H | H].
      * left. apply Z.leb_le. exact H.
      * right. exact H.
  - split; [reflexivity|]. split; [intros H; exact H | intros H; right; exact H].
Qed.

Lemma earlier_tick_fromTable (allPipes : list Pipe) (s : EarlierTick.State) :
  NoDup (map id allPipes) ->
  fromTable allPipes (EarlierTick.pipes s) ->
  fromTable allPipes (EarlierTick.pipes (EarlierTick.tick allPipes s)).
Proof.
  intros Htable [Hnodup Hincl].
  destruct (EarlierTick.gameEnd s) eqn:Hend.
  - unfold EarlierTick.tick. rewrite Hend. split; assumption.
  - rewrite (proj1 (earlier_tick_shape allPipes s Hend)).
    unfold EarlierTick.pipesAfterTick, fromTable.
    fold credit. change (map (fun pipe => credit pipe)) with (map credit).
    rewrite map_id_credit.
    destruct (updatePipes_facts
                (EarlierTick.pipes s) allPipes
                (EarlierTick.gameTime s + Constants.TICK_RATE_MS / 1000))
      as [Horigin Hdistinct].
    split; [apply Hdistinct; assumption|].
    intros i Hin. apply in_map_iff in Hin as (pipe & Hi & Hin).
    destruct (Horigin pipe Hin) as [(current & Hc & Heq & _) | (Hall & _)].
    + apply Hincl. apply in_map_iff. exists current.
      split; [|exact Hc]. subst pipe i. reflexivity.
    + apply in_map_iff. exists pipe. split; assumption.
Qed.

Lemma earlier_scan_fromTable (allPipes : list Pipe)
    (events : list EarlierTick.Event) :
  NoDup (map id allPipes) ->
  forall s, fromTable allPipes (EarlierTick.pipes s) ->
  fromTable allPipes
    (EarlierTick.pipes (EarlierTick.scan allPipes events s)).
Proof.
  intros Htable. induction events as [|e events IH]; intros s Hs;
    [exact Hs|].
  unfold EarlierTick.scan. cbn [fold_left].
  apply IH. destruct e; cbn [EarlierTick.reducer].
  - apply earlier_tick_fromTable; assumption.
  - exact Hs.
  - unfold EarlierTick.restart. destruct (EarlierTick.gameEnd s); [|exact Hs].
    split; [constructor | intros i []].
Qed.

(** For pipes that come from the table, each at most once, the earlier
    test counts exactly the marks: it holds precisely when the table is
    not empty and every pipe of it has its marked copy in the list. *)
Lemma earlier_test_on_table_pipes (allPipes visible : list Pipe) :
  NoDup (map id allPipes) -> fromTable allPipes visible ->
  Earlier.allPipesPassed allPipes visible = true
  <-> allPipes <> [] /\ everyPipeMarkedIn allPipes visible.
Proof.
  intros Htable [Hnodup Hincl]. unfold Earlier.allPipesPassed.
  rewrite andb_true_iff, Nat.ltb_lt, Nat.eqb_eq.
  assert (Hmarked_nodup : NoDup (map id (filter passed visible)))
    by (apply NoDup_ids_filter; exact Hnodup).
  assert (Hmarked_incl :
            incl (map id (filter passed visible)) (map id allPipes)).
  { intros i Hin. apply Hincl. apply in_map_iff in Hin as (p & Hp & Hin).
    apply filter_In in Hin as [Hin _]. apply in_map_iff. exists p.
    split; assumption. }
  split.
  - intros [Hpos Heq]. split.
    + intros Hnil. rewrite Hnil in Hpos. cbn in Hpos. lia.
    + intros levelPipe Hin.
      assert (Hid : In (id levelPipe) (map id (filter passed visible))).
      { refine (NoDup_length_incl Hmarked_nodup _ Hmarked_incl
                                  (id levelPipe) _).
        - rewrite !length_map. lia.
        - apply in_map. exact Hin. }
      apply in_map_iff in Hid as (pipe & Hp & Hpin).
      apply filter_In in Hpin as [Hpin Hpassed].
      exists pipe. repeat split; assumption.
  - intros [Hne Hall]. split.
    + destruct allPipes; [contradiction | cbn; lia].
    + apply Nat.le_antisymm.
      * pose proof (NoDup_incl_length Hmarked_nodup Hmarked_incl) as H.
        rewrite !length_map in H. exact H.
      * assert (Hback :
                  incl (map id allPipes) (map id (filter passed visible))).
        { intros i Hin. apply in_map_iff in Hin as (q & Hq & Hin).
          destruct (Hall q Hin) as (pipe & Hpin & Hid & Hpassed).
          apply in_map_iff. exists pipe. split; [congruence|].
          apply filter_In. split; assumption. }
        pose proof (NoDup_incl_length Htable Hback) as H.
        rewrite !length_map in H. exact H.
Qed.

(** X19.  Completion in the earlier iteration: in a session of the earlier
    reducer started from its initial state, over a level table with
    distinct identities, the completion test of a tick holds exactly when
    the table is not empty and every pipe of the table has a copy marked
    passed among the pipes the tick stores; when it holds the tick sets
    [gameEnd], and a tick sets [gameEnd] only then or when it takes the
    last life. *)
Theorem earlier_completion_iff_every_pipe_marked
    (allPipes : list Pipe) (events : list EarlierTick.Event) :
  NoDup (map id allPipes) ->
  let s := EarlierTick.scan allPipes events EarlierTick.initialState in
  EarlierTick.gameEnd s = false ->
  let s' := EarlierTick.tick allPipes s in
  (Earlier.allPipesPassed allPipes (EarlierTick.pipes s') = true
   <-> allPipes <> [] /\ everyPipeMarkedIn allPipes (EarlierTick.pipes s'))
  /\ (Earlier.allPipesPassed allPipes (EarlierTick.pipes s') = true ->
      EarlierTick.gameEnd s' = true)
  /\ (EarlierTick.gameEnd s' = true ->
      (EarlierTick.lives s' <= 0)%Z
      \/ Earlier.allPipesPassed allPipes (EarlierTick.pipes s') = true).
Proof.
  intros Htable. cbv zeta. intros Hend.
  assert (Hfrom : fromTable allPipes
            (EarlierTick.pipes
               (EarlierTick.scan allPipes events EarlierTick.initialState))).
  { apply earlier_scan_fromTable; [exact Htable|].
    split; [constructor | intros i []]. }
  split.
  - apply earlier_test_on_table_pipes; [exact Htable|].
    apply earlier_tick_fromTable; assumption.
  - apply (earlier_tick_shape allPipes _ Hend).
Qed.

Lemma earlier_completion_iff_every_pipe_marked_witness :
  let s := EarlierTick.scan [earlyPipe] [EarlierTick.Tick]
                            EarlierTick.initialState in
  EarlierTick.pipes s = [earlyPipe]
  /\ EarlierTick.gameEnd (EarlierTick.tick [earlyPipe] s) = true
  /\ (3 <= EarlierTick.lives (EarlierTick.tick [earlyPipe] s))%Z
  /\ everyPipeMarkedIn [earlyPipe]
       (EarlierTick.pipes (EarlierTick.tick [earlyPipe] s)).
Proof.
  cbv zeta.
  destruct (earlier_completion_iff_every_pipe_marked
              [earlyPipe] [EarlierTick.Tick])
    as (Hiff & Hends & _).
  - cbn. constructor; [intros [] | constructor].
  - reflexivity.
  - assert (Hpassed :
      Earlier.allPipesPassed
        [earlyPipe]
        (EarlierTick.pipes
           (EarlierTick.tick
              [earlyPipe]
              (EarlierTick.scan [earlyPipe] [EarlierTick.Tick]
                                EarlierTick.initialState))) = true)
      by reflexivity.
    split; [reflexivity|]. split; [exact (Hends Hpassed)|].
    split; [vm_compute; discriminate|].
    exact (proj2 (proj1 Hiff Hpassed)).
Defined.

(** ** Drawing and collision agree *)

(** X20.  What is drawn is what is hit: for a bird that is entirely on
    screen, the pipe collision test holds exactly when the box of the
    bird's image overlaps one of the two rectangles the renderer computes
    for the pipe, and a rectangle the box overlaps has a positive height,
    so it is one that is drawn. *)
Theorem hit_iff_drawn_boxes_overlap (birdY : Q) (pipe : Pipe) :
  0 <= birdY -> birdY + Birb.HEIGHT <= Viewport.CANVAS_HEIGHT ->
  checkBirdHitsPipe birdY pipe
  = boxesOverlap (birdImg birdY) (pipeTop pipe)
    || boxesOverlap (birdImg birdY) (pipeBottom pipe)
  /\ (boxesOverlap (birdImg birdY) (pipeTop pipe) = true ->
      0 < rectHeight (pipeTop pipe))
  /\ (boxesOverlap (birdImg birdY) (pipeBottom pipe) = true ->
      0 < rectHeight (pipeBottom pipe)).
Proof.
  intros Hlow Hhigh.
  unfold checkBirdHitsPipe, boxesOverlap, birdImg, pipeTop, pipeBottom.
  cbv zeta. cbn [rectX rectY rectWidth rectHeight].
  split; [|split].
  - assert (E1 : Qltb Constants.BIRD_X (x pipe + Constants.PIPE_WIDTH)
                 && Qltb (x pipe) (Constants.BIRD_X + Birb.WIDTH)
                 = Qltb (x pipe) (Constants.BIRD_X + Birb.WIDTH)
                   && Qltb Constants.BIRD_X (x pipe + Constants.PIPE_WIDTH))
      by apply andb_comm.
    rewrite E1.
    destruct (Qltb (x pipe) (Constants.BIRD_X + Birb.WIDTH)
              && Qltb Constants.BIRD_X (x pipe + Constants.PIPE_WIDTH));
      [|reflexivity].
    cbn [andb].
    assert (E2 : Qltb 0 (birdY + Birb.HEIGHT) = true)
      by (order_facts; unfold Birb.HEIGHT in *; lra).
    assert (E3 : Qltb birdY
                   ((gapY pipe + gapHeight pipe / 2) * Viewport.CANVAS_HEIGHT
                    + (1 - (gapY pipe + gapHeight pipe / 2))
                      * Viewport.CANVAS_HEIGHT) = true).
    { order_facts.
      unfold Viewport.CANVAS_HEIGHT, Birb.HEIGHT, Qdiv in *.
      change (/ 2) with (1 # 2). lra. }
    rewrite E2, E3, andb_true_r. cbn [andb].
    assert (E4 : Qltb birdY
                   (0 + (gapY pipe - gapHeight pipe / 2)
                        * Viewport.CANVAS_HEIGHT)
                 = Qltb birdY
                     ((gapY pipe - gapHeight pipe / 2)
                      * Viewport.CANVAS_HEIGHT)).
    { destruct (Qltb birdY ((gapY pipe - gapHeight pipe / 2)
                            * Viewport.CANVAS_HEIGHT)) eqn:E;
        order_facts; lra. }
    rewrite E4. reflexivity.
  - intros H. apply andb_true_iff in H as [H _].
    apply andb_true_iff in H as [_ H]. order_facts. lra.
  - intros H. apply andb_true_iff in H as [_ H]. order_facts.
    unfold Viewport.CANVAS_HEIGHT, Birb.HEIGHT in *. lra.
Qed.

Lemma hit_iff_drawn_boxes_overlap_witness :
  boxesOverlap (birdImg 250) (pipeTop highGapPipe)
  || boxesOverlap (birdImg 250) (pipeBottom highGapPipe) = true
  /\ 0 < rectHeight (pipeBottom highGapPipe).
Proof.
  destruct (hit_iff_drawn_boxes_overlap 250 highGapPipe)
    as (Heq & _ & Hbottom);
    [vm_compute; discriminate | vm_compute; discriminate |].
  split; [rewrite <- Heq; reflexivity | apply Hbottom; reflexivity].
Defined.

(** ** Completion in a session *)



(** The identities a tick marks are those of the pipes whose [passed]
    field it flips from false to true. *)
Lemma marksOfTick_are_the_flips (allPipesLength : Z) (s : State) :
  gameEnd s = false -> paused s = false ->
  marksOfTick s
  = map (fun pair => id (fst pair))
        (filter (fun pair => flipped (fst pair) (snd pair))
                (combine (Step.movedPipes s)
                         (pipes (tick allPipesLength s)))).
Proof.
  intros Hend Hpaused.
  rewrite (proj2 (tick_score allPipesLength s Hend Hpaused)).
  unfold marksOfTick. induction (Step.movedPipes s) as [|pipe l IH];
    [reflexivity|].
  cbn [map combine filter fst snd]. rewrite credit_flips_iff.
  destruct (justPassed pipe); cbn [map fst]; rewrite IH; reflexivity.
Qed.





